(** * BBC Local Democracy Reporting Service feeding service

    A shallow embedding of [superdesk/io/feeding_services/bbc_ldrs.py]:
    the connectivity test [_test], the page walk [_fetch_data] and the
    ingest cycle [_update] of [BBCLDRSFeedingService], followed by the
    properties of the pagination loop and of the error classification.

    Python text is modelled by [string] (one [ascii] per character), Python
    integers by [Z], Python dictionaries by [gmap].  The HTTP endpoint and
    the feed parser are collaborators outside this file: they are section
    variables that thread an abstract [World].  Every request sent and the
    answer it got are recorded in a log next to the world, so that the
    number and the order of the requests can be stated. *)

From stdpp Require Import gmap strings list pretty.
From Stdlib Require Import ZArith Lia Ascii.

Local Open Scope Z_scope.

(** ** The fragment of Python's [re] module the service uses *)

Module re.

Inductive quantifier := One | Star | Plus.

(** One atom of a pattern: a set of characters and how often it repeats. *)
Record atom := Atom { accepts : ascii -> bool; repeat : quantifier }.

Definition pattern := list atom.

Definition lit (c : ascii) : atom := Atom (Ascii.eqb c) One.

Fixpoint literal (s : string) : pattern :=
  match s with
  | EmptyString => []
  | String c s' => lit c :: literal s'
  end.

(** The class [[0-9]]. *)
Definition digit (c : ascii) : bool :=
  (48 <=? nat_of_ascii c)%nat && (nat_of_ascii c <=? 57)%nat.

(** Greedy repetition: take as many characters of the class as possible,
    and give one back each time the rest of the pattern fails. *)
Fixpoint greedy (f : ascii -> bool) (k : string -> option string)
    (s : string) : option string :=
  match s with
  | String c s' =>
      if f c then
        match greedy f k s' with
        | Some m => Some (String c m)
        | None => k s
        end
      else k s
  | EmptyString => k s
  end.

(** [match_here p s] is the text matched by [p] at the start of [s]. *)
Fixpoint match_here (p : pattern) (s : string) : option string :=
  match p with
  | [] => Some EmptyString
  | a :: p' =>
      match repeat a with
      | One =>
          match s with
          | String c s' =>
              if accepts a c then String c <$> match_here p' s' else None
          | EmptyString => None
          end
      | Star => greedy (accepts a) (match_here p') s
      | Plus =>
          match s with
          | String c s' =>
              if accepts a c
              then String c <$> greedy (accepts a) (match_here p') s'
              else None
          | EmptyString => None
          end
      end
  end.

(** [re.match]: the pattern is tried at the start of the text only.
    The result stands for the match object, [None] for Python's [None];
    a match object is represented by its [group()]. *)
Definition match_ (p : pattern) (s : string) : option string :=
  match_here p s.

(** [re.search]: the leftmost position at which the pattern matches. *)
Fixpoint search (p : pattern) (s : string) : option string :=
  match match_here p s with
  | Some m => Some m
  | None =>
      match s with
      | String _ s' => search p s'
      | EmptyString => None
      end
  end.

End re.

Definition dquote : ascii := "034"%char.

(** ['\"total\": *[0-9]*'] *)
Definition total_re : re.pattern :=
  re.literal (String dquote ("total" +:+ String dquote ":"))
    ++ [re.Atom (Ascii.eqb " ") re.Star; re.Atom re.digit re.Star].

(** ['[0-9]+'] *)
Definition number_re : re.pattern := [re.Atom re.digit re.Plus].

(** ['Error: No API Key provided'] *)
Definition no_api_key_re : re.pattern :=
  re.literal "Error: No API Key provided".

(** ** Values, requests and responses *)

Inductive pyval :=
  | PInt (n : Z)
  | PStr (s : string).

Record request := Request {
  req_url : string;
  req_params : gmap string pyval;
  req_headers : gmap string string;
  req_timeout : Z
}.

Record response := Response {
  status_code : Z;
  reason : string;
  text : string
}.

(** [Response.ok] of the requests library: [raise_for_status] raises for
    the client and server error codes. *)
Definition ok (r : response) : bool :=
  negb ((400 <=? status_code r) && (status_code r <? 600)).

(** The exception classes of [requests.exceptions] a GET may raise. *)
Inductive requests_class :=
  | ConnectionError
  | ProxyError
  | SSLError
  | ConnectTimeout
  | ReadTimeout
  | TooManyRedirects
  | InvalidURL.

(** [isinstance(err, requests.exceptions.ConnectionError)]. *)
Definition is_ConnectionError (c : requests_class) : bool :=
  match c with
  | ConnectionError | ProxyError | SSLError | ConnectTimeout => true
  | ReadTimeout | TooManyRedirects | InvalidURL => false
  end.

Record requests_exception := RequestsException {
  exc_class : requests_class;
  exc_detail : string
}.

Inductive get_result :=
  | Answers (r : response)
  | Fails (err : requests_exception).

(** The error kinds of [superdesk.errors.IngestApiError] the service raises. *)
Inductive api_error :=
  | apiConnectionError
  | apiAuthError
  | apiNotFoundError
  | apiGeneralError.

Definition offset_jump : Z := 10.

Definition offset_of (req : request) : option Z :=
  match req_params req !! "offset" with
  | Some (PInt n) => Some n
  | _ => None
  end.

(** ** Python's [int] on text *)

Definition digit_value (c : ascii) : option Z :=
  if re.digit c then Some (Z.of_nat (nat_of_ascii c) - 48) else None.

Fixpoint int_digits (acc : Z) (s : string) : option Z :=
  match s with
  | EmptyString => Some acc
  | String c s' =>
      match digit_value c with
      | Some d => int_digits (10 * acc + d) s'
      | None => None
      end
  end.

(** ** Sample endpoints

    The world of a sample endpoint is the number of requests it has
    answered; it reads its answers from a script and repeats the last one. *)

Definition scripted (answers : list get_result) (last : get_result)
    (req : request) (w : nat) : get_result * nat :=
  (nth w answers last, S w).

Definition quoted (s : string) : string :=
  String dquote (s +:+ String dquote "").

Definition body_total_15 : string :=
  "{" +:+ quoted "total" +:+ ": 15, " +:+ quoted "item" +:+ ": [1]}".

Definition body_total_15_broken : string :=
  "{" +:+ quoted "total" +:+ ": 15, " +:+ quoted "item" +:+ ": [".

Definition body_total_15_second : string :=
  "{" +:+ quoted "total" +:+ ": 15, " +:+ quoted "item" +:+ ": [2]}".

Definition body_total_0 : string :=
  "{" +:+ quoted "total" +:+ ": 0, " +:+ quoted "item" +:+ ": []}".

Definition body_no_total : string :=
  "{" +:+ quoted "item" +:+ ": []}".

Definition body_total_null : string :=
  "{" +:+ quoted "total" +:+ ": null}".

Definition no_api_key : string := "Error: No API Key provided".

Definition body_no_api_key_inside : string :=
  "{" +:+ quoted "message" +:+ ": " +:+ quoted no_api_key +:+ "}".

Definition sample_config : gmap string string :=
  {[ "url" := "https://api.ldrs.org.uk/v1/item"; "api_key" := "secret" ]}.

Definition sample_strftime (t : Z) (format : string) : string :=
  "1970-01-01T00:00:00".

Definition timed_out : requests_exception :=
  RequestsException ConnectTimeout "connect timeout=30".

(** A page body reporting the total [n], written in decimal. *)
Definition body_total (n : N) : string :=
  "{" +:+ quoted "total" +:+ ": " +:+ pretty n +:+ ", " +:+ quoted "item"
    +:+ ": []}".

(** An endpoint whose total is always one more than the offset asked for. *)
Definition ahead (req : request) (w : nat) : get_result * nat :=
  (Answers (Response 200 "OK"
              (body_total (Z.to_N (default 0 (offset_of req)) + 1))),
   S w).

Definition read_timeout : requests_exception :=
  RequestsException ReadTimeout "read timeout=30".

(** ** The configuration schema the service declares *)

Record field := Field {
  field_id : string;
  field_type : string;
  field_label : string;
  field_placeholder : string;
  field_required : bool;
  field_default : string
}.

Definition fields : list field :=
  [ Field "url" "text" "LDRS URL" "LDRS URL" true
      "https://api.ldrs.org.uk/v1/item";
    Field "api_key" "text" "API Key" "API Key" true "" ].

(** ** The service *)

Section BBCLDRSFeedingService.

(** The state of everything outside the process, the type of the
    timestamps kept by the provider, the feed parsers and the items
    they produce. *)
Variables World datetime feed_parser article : Type.

Variable utcfromtimestamp : Z -> datetime.
Variable strftime : datetime -> string -> string.

(** [requests.get(url, params=..., headers=..., timeout=...)]. *)
Variable requests_get : request -> World -> get_result * World.

Record provider := Provider {
  config : option (gmap string string);
  last_updated : option datetime
}.

(** Exceptions.  [superdesk.errors] is outside this file: an
    [IngestApiError] or a [ParserError] records the factory that built it
    and the arguments it was given. *)
Inductive pyexn :=
  | Exception (msg : string)
  | AttributeError (msg : string)
  | KeyError (key : string)
  | ValueError (msg : string)
  | RequestException (err : requests_exception)
  | IngestApiError (kind : api_error) (exception : pyexn)
      (prov : option provider)
  | ParserError_parseMessageError (exception : pyexn) (prov : provider)
      (data : string).

(** [self.get_feed_parser(provider, item)] and [parser.parse(item)]. *)
Variable get_feed_parser :
  provider -> string -> World -> (pyexn + feed_parser) * World.
Variable parse :
  feed_parser -> string -> World -> (pyexn + article) * World.

Inductive outcome (A : Type) :=
  | Return (a : A)
  | Raise (e : pyexn).
Arguments Return {A} a.
Arguments Raise {A} e.

(** The world together with the record of the requests sent so far. *)
Record net := Net {
  world : World;
  log : list (request * get_result)
}.

Definition M (A : Type) : Type := net -> outcome A * net.

Definition ret {A} (a : A) : M A := fun st => (Return a, st).
Definition raise {A} (e : pyexn) : M A := fun st => (Raise e, st).

Definition bind {A B} (m : M A) (k : A -> M B) : M B :=
  fun st =>
    match m st with
    | (Return a, st') => k a st'
    | (Raise e, st') => (Raise e, st')
    end.

Notation "x <- m ;; k" := (bind m (fun x => k))
  (at level 100, m at next level, right associativity).

(** [try: m  except ... as ex: handler ex]; the handler answers [None]
    for an exception its clause does not catch. *)
Definition try_except {A} (m : M A) (handler : pyexn -> option (M A))
    : M A :=
  fun st =>
    match m st with
    | (Return a, st') => (Return a, st')
    | (Raise e, st') =>
        match handler e with
        | Some h => h st'
        | None => (Raise e, st')
        end
    end.

(** A terminated call, or a loop stopped by the fuel with its local
    variables [l]. *)
Inductive run (L A : Type) :=
  | Done (r : outcome A) (st : net)
  | Running (l : L) (st : net).
Arguments Done {L A} r st.
Arguments Running {L A} l st.

(** [while True: body], where the body either goes round again with new
    local variables or returns from the function. *)
Fixpoint while_True {L A} (fuel : nat) (body : L -> M (L + A)) (l : L)
    (st : net) : run L A :=
  match fuel with
  | O => Running l st
  | S fuel' =>
      match body l st with
      | (Return (inl l'), st') => while_True fuel' body l' st'
      | (Return (inr a), st') => Done (Return a) st'
      | (Raise e, st') => Done (Raise e) st'
      end
  end.

Definition get (req : request) : M response :=
  fun st =>
    let '(res, w) := requests_get req (world st) in
    let st' := Net w (log st ++ [(req, res)]) in
    match res with
    | Answers r => (Return r, st')
    | Fails err => (Raise (RequestException err), st')
    end.

(** [except requests.exceptions.ConnectionError as err:
       raise IngestApiError.apiConnectionError(exception=err)] *)
Definition on_ConnectionError {A} (ex : pyexn) : option (M A) :=
  match ex with
  | RequestException err =>
      if is_ConnectionError (exc_class err)
      then Some (raise (IngestApiError apiConnectionError ex None))
      else None
  | _ => None
  end.

(** [d[k]] *)
Definition getitem {V} (d : gmap string V) (k : string) : M V :=
  match d !! k with
  | Some v => ret v
  | None => raise (KeyError k)
  end.

(** [m.group()], where [m] is a match object or [None]. *)
Definition group (m : option string) : M string :=
  match m with
  | Some s => ret s
  | None => raise (AttributeError "'NoneType' object has no attribute 'group'")
  end.

(** [int(s)] on decimal text; Python accepts more (signs, blanks,
    underscores), none of which [[0-9]+] lets through.  CPython 3.11 and
    later refuse, with [ValueError], a text of more than 4300 digits;
    this definition is [int] below that limit, and a statement that
    depends on it says so ([within_int_limit]). *)
Definition int (s : string) : M Z :=
  match s, int_digits 0 s with
  | String _ _, Some n => ret n
  | _, _ => raise (ValueError "invalid literal for int() with base 10")
  end.

(** [x is None], for [x] a text ([Some]) or [None]. *)
Definition is_None (x : option string) : bool :=
  match x with
  | None => true
  | Some _ => false
  end.

(** The truth value of a match object or [None]. *)
Definition truth (m : option string) : bool :=
  match m with
  | Some _ => true
  | None => false
  end.

Definition _test (prov : provider) : M unit :=
  let config := default ∅ (config prov) in
  url <- getitem config "url" ;;
  api_key <- getitem config "api_key" ;;
  let params := {[ "limit" := PInt 1; "fields" := PStr "id" ]} in
  let headers := {[ "apikey" := api_key ]} in
  response <- try_except (get (Request url params headers 30))
                on_ConnectionError ;;
  if negb (ok response) then
    if status_code response =? 404 then
      raise (IngestApiError apiNotFoundError
               (Exception (reason response)) (Some prov))
    else
      raise (IngestApiError apiGeneralError
               (Exception (reason response)) (Some prov))
  else ret tt.

(** The variables of [_fetch_data] that change from one page to the next. *)
Record locals := Locals {
  params : gmap string pyval;
  items : list string;
  offset : Z
}.

(** The body of the [while True] loop of [_fetch_data].  [results_str] is
    the text [group()] returned, so [results_str is None] tests a text. *)
Definition fetch_page (url : string) (headers : gmap string string)
    (prov : provider) (l : locals) : M (locals + list string) :=
  let params := <[ "offset" := PInt (offset l) ]> (params l) in
  response <- try_except (get (Request url params headers 30))
                on_ConnectionError ;;
  if ok response then
    item_ident <- group (re.search total_re (text response)) ;;
    results_str <- group (re.search number_re item_ident) ;;
    if is_None (Some results_str) then
      raise (IngestApiError apiGeneralError
               (Exception (text response)) (Some prov))
    else
      num_results <- int results_str ;;
      let items :=
        if num_results >? 0 then items l ++ [text response] else items l in
      if offset l >=? num_results then ret (inr items)
      else ret (inl (Locals params items (offset l + offset_jump)))
  else
    if truth (re.match_ no_api_key_re (text response)) then
      raise (IngestApiError apiAuthError
               (Exception (text response)) (Some prov))
    else if status_code response =? 404 then
      raise (IngestApiError apiNotFoundError
               (Exception (reason response)) (Some prov))
    else
      raise (IngestApiError apiGeneralError
               (Exception (reason response)) (Some prov)).

Definition _fetch_data (fuel : nat) (config : gmap string string)
    (prov : provider) (st : net) : run locals (list string) :=
  match (url <- getitem config "url" ;;
         api_key <- getitem config "api_key" ;;
         ret (url, api_key)) st with
  | (Raise e, st) => Done (Raise e) st
  | (Return (url, api_key), st) =>
      let last_update :=
        strftime (default (utcfromtimestamp 0) (last_updated prov))
          "%Y-%m-%dT%H:%M:%S" in
      let offset_jump := offset_jump in
      let params :=
        {[ "start" := PStr last_update; "limit" := PInt offset_jump ]} in
      let headers := {[ "apikey" := api_key ]} in
      let items := [] in
      let offset := 0 in
      while_True fuel (fetch_page url headers prov)
        (Locals params items offset) st
  end.

(** The [for item in json_items] loop of [_update]. *)
Fixpoint parse_items (prov : provider) (json_items : list string)
    (parsed_items : list article) : M (list article) :=
  match json_items with
  | [] => ret parsed_items
  | item :: rest =>
      parsed <- try_except
                  (parser <- (fun st =>
                      let '(r, w) := get_feed_parser prov item (world st) in
                      (match r with inl ex => Raise ex | inr p => Return p end,
                       Net w (log st))) ;;
                   fun st =>
                      let '(r, w) := parse parser item (world st) in
                      (match r with inl ex => Raise ex | inr a => Return a end,
                       Net w (log st)))
                  (fun ex => Some (raise
                     (ParserError_parseMessageError ex prov item))) ;;
      parse_items prov rest (parsed_items ++ [parsed])
  end.

Definition _update (fuel : nat) (prov : provider)
    (update : gmap string pyval) (st : net) : run locals (list article) :=
  let config := default ∅ (config prov) in
  match _fetch_data fuel config prov st with
  | Running l st => Running l st
  | Done (Raise e) st => Done (Raise e) st
  | Done (Return json_items) st =>
      let parsed_items := [] in
      let '(r, st) := parse_items prov json_items parsed_items st in
      Done r st
  end.

(** ** Auxiliary notions for the statements *)

(** The request the loop sends when its local variables are [l]. *)
Definition page_request (url : string) (headers : gmap string string)
    (l : locals) : request :=
  Request url (<[ "offset" := PInt (offset l) ]> (params l)) headers 30.

(** The local variables on entry to the loop of [_fetch_data]. *)
Definition first_locals (prov : provider) : locals :=
  Locals
    {[ "start" := PStr (strftime (default (utcfromtimestamp 0)
                                    (last_updated prov))
                          "%Y-%m-%dT%H:%M:%S");
       "limit" := PInt offset_jump ]}
    [] 0.

(** The single request of [_test]. *)
Definition probe_request (url key : string) : request :=
  Request url {[ "limit" := PInt 1; "fields" := PStr "id" ]}
    {[ "apikey" := key ]} 30.

(** The text [s] begins with [marker]. *)
Fixpoint starts_with (marker s : string) : bool :=
  match marker, s with
  | EmptyString, _ => true
  | String a marker', String b s' => Ascii.eqb a b && starts_with marker' s'
  | String _ _, EmptyString => false
  end.

(** The text [s] contains [marker] somewhere. *)
Fixpoint contains (marker s : string) : bool :=
  starts_with marker s
  || match s with
     | String _ s' => contains marker s'
     | EmptyString => false
     end.

(** The total a page body reports, read the way [fetch_page] reads it. *)
Definition reported_total (body : string) : option Z :=
  item_ident ← re.search total_re body;
  results_str ← re.search number_re item_ident;
  match results_str with
  | String _ _ => int_digits 0 results_str
  | EmptyString => None
  end.

(** The run of digits [fetch_page] hands to [int]. *)
Definition digits_read (body : string) : option string :=
  item_ident ← re.search total_re body;
  re.search number_re item_ident.

(** The digits read from [body], if any, are few enough for [int] on
    every interpreter: at most 4300, the default limit of CPython 3.11
    and later. *)
Definition within_int_limit (body : string) : Prop :=
  ∀ d, digits_read body = Some d → (String.length d ≤ 4300)%nat.

(** The endpoint answers every request with a success whose body
    reports the total [T]. *)
Definition reports_total (T : Z) : Prop :=
  ∀ req w, ∃ r w',
    requests_get req w = (Answers r, w') ∧ ok r = true ∧
    reported_total (text r) = Some T.

Fixpoint all_digits (s : string) : bool :=
  match s with
  | EmptyString => true
  | String c s' => re.digit c && all_digits s'
  end.

(** The bodies of the answers in a stretch of the log. *)
Definition bodies (entries : list (request * get_result)) : list string :=
  omap (λ e, match e.2 with Answers r => Some (text r) | Fails _ => None end)
    entries.

Definition offsets (entries : list (request * get_result))
    : list (option Z) :=
  map (λ e, offset_of e.1) entries.

(** A run of the parser on one item that raises [ex]. *)
Definition parser_raises (prov : provider) (item : string) (w : World)
    (ex : pyexn) (w' : World) : Prop :=
  get_feed_parser prov item w = (inl ex, w') ∨
  ∃ p w1, get_feed_parser prov item w = (inr p, w1) ∧
          parse p item w1 = (inl ex, w').

Definition sample_provider : provider := Provider (Some sample_config) None.

(** A sample parser: any parser is selected, and parsing raises on a page
    whose text does not end with a closing brace. *)
Definition sample_get_feed_parser (prov : provider) (item : string)
    (w : World) : (pyexn + unit) * World :=
  (inr tt, w).

Fixpoint ends_with_brace (s : string) : bool :=
  match s with
  | EmptyString => false
  | String c EmptyString => Ascii.eqb c "}"
  | String _ s' => ends_with_brace s'
  end.

Definition sample_parse (parser : unit) (item : string) (w : World)
    : (pyexn + string) * World :=
  if ends_with_brace item then (inr item, w)
  else (inl (ValueError "Expecting value"), w).

(** A second sample parser, which marks what it parsed. *)
Definition sample_mark_parse (parser : unit) (item : string) (w : World)
    : (pyexn + string) * World :=
  (inr ("article " +:+ item), w).

(** The state a call has reached, finished or not. *)
Definition run_state {L A} (r : run L A) : net :=
  match r with
  | Done _ st => st
  | Running _ st => st
  end.

(** The total read from a logged answer, when it is a success that
    reports one. *)
Definition entry_total (e : request * get_result) : option Z :=
  match e.2 with
  | Answers r => if ok r then reported_total (text r) else None
  | Fails _ => None
  end.

(** A logged answer after which the loop goes round again: a success
    whose total is above the offset that was asked for. *)
Definition entry_continues (e : request * get_result) : bool :=
  match entry_total e, offset_of e.1 with
  | Some T, Some o => o <? T
  | _, _ => false
  end.

(** The bodies of the logged successes that report a positive total. *)
Definition kept_bodies (entries : list (request * get_result))
    : list string :=
  omap (λ e, match e.2, entry_total e with
             | Answers r, Some T => if T >? 0 then Some (text r) else None
             | _, _ => None
             end) entries.

Fixpoint spaces (k : nat) : string :=
  match k with
  | O => EmptyString
  | S k' => String " " (spaces k')
  end.

(** The character [c] occurs in [s]. *)
Fixpoint occurs (c : ascii) (s : string) : bool :=
  match s with
  | EmptyString => false
  | String a s' => Ascii.eqb c a || occurs c s'
  end.

(** Every character of [s] is in the class [f]. *)
Fixpoint every (f : ascii → bool) (s : string) : bool :=
  match s with
  | EmptyString => true
  | String c s' => f c && every f s'
  end.

(** [s] begins with a character of the class [f]. *)
Definition heads (f : ascii → bool) (s : string) : bool :=
  match s with
  | String c _ => f c
  | EmptyString => false
  end.

Definition starts_with_digit (s : string) : bool :=
  match s with
  | String c _ => re.digit c
  | EmptyString => false
  end.

(** ** What [[0-9]+] matches *)

Lemma greedy_digit_all s :
  ∀ m, re.greedy re.digit (re.match_here []) s = Some m → all_digits m = true.
Proof.
  induction s as [|c s IH]; simpl; intros m.
  - by intros [= <-].
  - destruct (re.digit c) eqn:Hd.
    + destruct (re.greedy re.digit _ s) as [m'|] eqn:Hg.
      * intros [= <-]. simpl. rewrite Hd. by apply IH.
      * by intros [= <-].
    + by intros [= <-].
Qed.

Lemma search_number_digits s :
  ∀ m, re.search number_re s = Some m →
  ∃ c m', m = String c m' ∧ all_digits m = true.
Proof.
  induction s as [|c s IH]; intros m; simpl.
  - discriminate.
  - destruct (re.digit c) eqn:Hd.
    + destruct (re.greedy re.digit _ s) as [m'|] eqn:Hg; simpl.
      * intros [= <-]. exists c, m'. split; [done|].
        simpl. rewrite Hd. by apply greedy_digit_all in Hg.
      * apply IH.
    + apply IH.
Qed.

Lemma int_digits_all m :
  all_digits m = true → ∀ acc, is_Some (int_digits acc m).
Proof.
  induction m as [|c m IH]; simpl; intros H acc; [by eexists|].
  apply andb_prop in H as [Hc Hm]. unfold digit_value. rewrite Hc.
  by apply IH.
Qed.

(** ** The loop combinator *)

Lemma while_True_Done_more {L A} (body : L → M (L + A)) n :
  ∀ l st r st', while_True n body l st = Done r st' →
  ∀ m, (n ≤ m)%nat → while_True m body l st = Done r st'.
Proof.
  induction n as [|n IH]; intros l st r st' H m Hm; simpl in H.
  - discriminate.
  - destruct m as [|m]; [lia|]. simpl.
    destruct (body l st) as [[[l'|a]|e] st1]; try exact H.
    apply (IH _ _ _ _ H). lia.
Qed.

Lemma while_True_Running_more {L A} (body : L → M (L + A)) n :
  ∀ l st l' st', while_True n body l st = Running l' st' →
  ∀ m, while_True (n + m) body l st = while_True m body l' st'.
Proof.
  induction n as [|n IH]; intros l st l' st' H m; simpl in H.
  - by inversion H.
  - simpl. destruct (body l st) as [[[l1|a]|e] st1]; try discriminate.
    by apply IH.
Qed.

(** ** One page *)

Section Page.

Variables (url : string) (headers : gmap string string) (prov : provider).
Variables (l : locals) (st : net).

Let req := page_request url headers l.

Lemma fetch_page_connection_error err w :
  requests_get req (world st) = (Fails err, w) →
  is_ConnectionError (exc_class err) = true →
  fetch_page url headers prov l st =
    (Raise (IngestApiError apiConnectionError (RequestException err) None),
     Net w (log st ++ [(req, Fails err)])).
Proof.
  intros Hget Hcls. unfold fetch_page, bind, try_except, get.
  unfold req, page_request in *. rewrite Hget. simpl. by rewrite Hcls.
Qed.

Lemma fetch_page_not_ok r w :
  requests_get req (world st) = (Answers r, w) →
  ok r = false →
  fetch_page url headers prov l st =
    (Raise
       (if truth (re.match_ no_api_key_re (text r)) then
          IngestApiError apiAuthError (Exception (text r)) (Some prov)
        else if status_code r =? 404 then
          IngestApiError apiNotFoundError (Exception (reason r)) (Some prov)
        else
          IngestApiError apiGeneralError (Exception (reason r)) (Some prov)),
     Net w (log st ++ [(req, Answers r)])).
Proof.
  intros Hget Hok. unfold fetch_page, bind, try_except, get.
  unfold req, page_request in *. rewrite Hget. simpl. rewrite Hok.
  destruct (truth _); [done|]. by destruct (_ =? 404).
Qed.

Lemma fetch_page_no_total r w :
  requests_get req (world st) = (Answers r, w) →
  ok r = true →
  reported_total (text r) = None →
  fetch_page url headers prov l st =
    (Raise (AttributeError "'NoneType' object has no attribute 'group'"),
     Net w (log st ++ [(req, Answers r)])).
Proof.
  intros Hget Hok Htot. unfold fetch_page, bind, try_except, get.
  unfold req, page_request in *. rewrite Hget. simpl. rewrite Hok.
  unfold reported_total in Htot.
  destruct (re.search total_re (text r)) as [ident|]; [|done].
  simpl in *.
  destruct (re.search number_re ident) as [res|] eqn:Hnum; [|done].
  exfalso. simpl in Htot.
  destruct (search_number_digits _ _ Hnum) as (c & m' & -> & Hall).
  destruct (int_digits_all _ Hall 0) as [n Hn]. congruence.
Qed.

Lemma fetch_page_total r w T :
  requests_get req (world st) = (Answers r, w) →
  ok r = true →
  reported_total (text r) = Some T →
  fetch_page url headers prov l st =
    (let items :=
       if T >? 0 then items l ++ [text r] else items l in
     Return
       (if offset l >=? T then inr items
        else inl (Locals (req_params req) items (offset l + offset_jump))),
     Net w (log st ++ [(req, Answers r)])).
Proof.
  intros Hget Hok Htot. unfold fetch_page, bind, try_except, get.
  unfold req, page_request in *. rewrite Hget. simpl. rewrite Hok.
  unfold reported_total in Htot.
  destruct (re.search total_re (text r)) as [ident|]; [|done].
  simpl in *.
  destruct (re.search number_re ident) as [res|]; [|done].
  simpl in *. destruct res as [|c res]; [done|].
  unfold int. rewrite Htot. simpl.
  by destruct (offset l >=? T).
Qed.

End Page.

(** ** The walk *)

Lemma _fetch_data_loop fuel cfg prov st url key :
  cfg !! "url" = Some url →
  cfg !! "api_key" = Some key →
  _fetch_data fuel cfg prov st =
    while_True fuel (fetch_page url {[ "apikey" := key ]} prov)
      (first_locals prov) st.
Proof.
  intros Hu Hk. unfold _fetch_data, bind, getitem. by rewrite Hu, Hk.
Qed.

Lemma _fetch_data_Done_more n cfg prov st r st' :
  _fetch_data n cfg prov st = Done r st' →
  ∀ m, (n ≤ m)%nat → _fetch_data m cfg prov st = Done r st'.
Proof.
  unfold _fetch_data. intros H m Hm.
  destruct (bind _ _ st) as [[[url key]|e] st1]; [|done].
  by apply (while_True_Done_more _ n).
Qed.

Lemma offset_of_page_request url headers l :
  offset_of (page_request url headers l) = Some (offset l).
Proof. unfold offset_of, page_request. simpl. by rewrite lookup_insert_eq. Qed.

Lemma offsets_cons o (n : nat) :
  (λ i : nat, Some (o + offset_jump * Z.of_nat i)) <$> seq 0 (S n) =
  Some o :: ((λ i : nat, Some (o + offset_jump + offset_jump * Z.of_nat i))
               <$> seq 0 n).
Proof.
  simpl. f_equal; [f_equal; lia|].
  rewrite <- fmap_S_seq, <- list_fmap_compose.
  apply list_fmap_ext. intros _ i _. simpl. f_equal. lia.
Qed.

(** When every page reports [T], the loop started at any offset sends
    requests at that offset and then every [offset_jump] further, up to
    and including the first offset that reaches [T], and returns what it
    held extended by the bodies received (none when [T] is zero). *)
Lemma walk_total T url headers prov :
  reports_total T →
  ∀ (m : nat) l st,
    T ≤ offset l + offset_jump * Z.of_nat m →
    ∃ (n : nat) new w',
      (1 ≤ n ≤ S m)%nat ∧
      (∀ fuel, (n ≤ fuel)%nat →
         while_True fuel (fetch_page url headers prov) l st =
           Done (Return (items l ++ if T >? 0 then bodies new else []))
             (Net w' (log st ++ new))) ∧
      offsets new =
        (λ i : nat, Some (offset l + offset_jump * Z.of_nat i)) <$> seq 0 n ∧
      (∀ i : nat, (S i < n)%nat → offset l + offset_jump * Z.of_nat i < T) ∧
      T ≤ offset l + offset_jump * Z.of_nat (n - 1) ∧
      length (bodies new) = n.
Proof.
  intros HT. induction m as [|m IH]; intros l st Hle;
    destruct (HT (page_request url headers l) (world st))
      as (r & w & Hget & Hok & Htot);
    pose proof (fetch_page_total url headers prov l st r w T Hget Hok Htot)
      as Hpage; simpl in Hpage.
  all: destruct (offset l >=? T) eqn:Hge.
  all: try (exfalso; unfold offset_jump in *; lia).
  1, 2: exists 1%nat, [(page_request url headers l, Answers r)], w;
    split; [lia|]; split; [|split; [|split; [|split]]];
    [ intros [|fuel] Hf; [lia|]; simpl; rewrite Hpage;
      unfold bodies; simpl; destruct (T >? 0); by rewrite ?app_nil_r
    | unfold offsets; simpl; rewrite offset_of_page_request;
      do 2 f_equal; unfold offset_jump; lia
    | intros i Hi; lia
    | simpl; unfold offset_jump in *; lia
    | done ].
  set (l' := Locals (<[ "offset" := PInt (offset l) ]> (params l))
               (if T >? 0 then items l ++ [text r] else items l)
               (offset l + offset_jump)) in *.
  set (e := (page_request url headers l, Answers r)).
  destruct (IH l' (Net w (log st ++ [e])))
    as (n & new & w' & Hn & Hrun & Hoff & Hlt & Hlast & Hlen).
  { subst l'. simpl. lia. }
  exists (S n), (e :: new), w'.
  split; [lia|]. split; [|split; [|split; [|split]]].
  - intros [|fuel] Hf; [lia|]. simpl. rewrite Hpage. fold e.
    rewrite (Hrun fuel) by lia. simpl. rewrite <- app_assoc. simpl.
    f_equal. f_equal. unfold bodies. simpl.
    destruct (T >? 0); [by rewrite <- app_assoc|done].
  - rewrite offsets_cons. unfold offsets in *. simpl.
    rewrite offset_of_page_request. f_equal. exact Hoff.
  - intros [|i] Hi; [unfold offset_jump in *; lia|].
    specialize (Hlt i). simpl in Hlt. lia.
  - simpl in Hlast. destruct n as [|n]; [lia|].
    replace (S (S n) - 1)%nat with (S n) by lia.
    replace (S n - 1)%nat with n in Hlast by lia. lia.
  - change (bodies (e :: new)) with (text r :: bodies new).
    simpl. by rewrite Hlen.
Qed.

Lemma fetch_running_more n cfg prov st url key l st1 :
  cfg !! "url" = Some url →
  cfg !! "api_key" = Some key →
  _fetch_data n cfg prov st = Running l st1 →
  ∀ m, _fetch_data (n + m) cfg prov st =
       while_True m (fetch_page url {[ "apikey" := key ]} prov) l st1.
Proof.
  intros Hu Hk Hrun m. rewrite !(_fetch_data_loop _ _ _ _ _ _ Hu Hk) in *.
  by apply while_True_Running_more.
Qed.

Lemma match_literal marker :
  ∀ s, truth (re.match_ (re.literal marker) s) = starts_with marker s.
Proof.
  unfold re.match_. induction marker as [|a marker IH]; intros s; simpl.
  - by destruct s.
  - destruct s as [|b s]; [done|].
    destruct (Ascii.eqb a b); simpl; [|done].
    rewrite <- IH. by destruct (re.match_here _ s).
Qed.

(** ** The page walk *)

(** C9.  When every page succeeds and reports the same total [T ≥ 0], the
    walk terminates: with enough fuel [_fetch_data] returns.  Its requests
    carry the offsets 0, [offset_jump], 2 * [offset_jump], ... in this order;
    every request but the last was sent at an offset below [T] and the last,
    after which the loop returns what it accumulated, is the first at an
    offset that reaches [T].  When [T] is zero there is one request only and
    nothing is appended. *)
Theorem fetch_walk_terminates T cfg prov st url key :
  0 ≤ T →
  reports_total T →
  cfg !! "url" = Some url →
  cfg !! "api_key" = Some key →
  ∃ (n : nat) new w',
    (∀ fuel, (n ≤ fuel)%nat →
       _fetch_data fuel cfg prov st =
         Done (Return (if T >? 0 then bodies new else []))
           (Net w' (log st ++ new))) ∧
    offsets new = (λ i : nat, Some (offset_jump * Z.of_nat i)) <$> seq 0 n ∧
    (∀ i : nat, (S i < n)%nat → offset_jump * Z.of_nat i < T) ∧
    T ≤ offset_jump * Z.of_nat (n - 1) ∧
    (T = 0 → n = 1%nat).
Proof.
  intros HT0 HT Hu Hk.
  destruct (walk_total T url {[ "apikey" := key ]} prov HT
              (Z.to_nat T) (first_locals prov) st)
    as (n & new & w' & Hn & Hrun & Hoff & Hlt & Hlast & Hlen).
  { simpl. unfold offset_jump. lia. }
  exists n, new, w'. simpl in *. repeat split.
  - intros fuel Hf. rewrite (_fetch_data_loop _ _ _ _ _ _ Hu Hk).
    by apply Hrun.
  - exact Hoff.
  - exact Hlt.
  - exact Hlast.
  - intros ->. simpl in Hn. lia.
Qed.

(** C2, as the code has it.  When every page succeeds and reports the same
    total [T > 0], the walk sends a finite number of requests: one more than
    the smallest [k] with [k * offset_jump ≥ T]. *)
Theorem fetch_request_count T cfg prov st url key :
  0 < T →
  reports_total T →
  cfg !! "url" = Some url →
  cfg !! "api_key" = Some key →
  ∃ (n : nat) pages new w',
    (∀ fuel, (n ≤ fuel)%nat →
       _fetch_data fuel cfg prov st =
         Done (Return pages) (Net w' (log st ++ new))) ∧
    length new = n ∧
    ∃ k : nat, n = S k ∧ T ≤ Z.of_nat k * offset_jump ∧
      ∀ j : nat, T ≤ Z.of_nat j * offset_jump → (k ≤ j)%nat.
Proof.
  intros HT0 HT Hu Hk.
  destruct (walk_total T url {[ "apikey" := key ]} prov HT
              (Z.to_nat T) (first_locals prov) st)
    as (n & new & w' & _ & Hrun & Hoff & Hlt & Hlast & _).
  { simpl. unfold offset_jump. lia. }
  simpl in *.
  exists n, (if T >? 0 then bodies new else []), new, w'.
  split.
  { intros fuel Hf. rewrite (_fetch_data_loop _ _ _ _ _ _ Hu Hk).
    by apply Hrun. }
  split.
  { apply (f_equal length) in Hoff. unfold offsets in Hoff.
    by rewrite !length_fmap, length_seq in Hoff. }
  destruct n as [|k].
  { simpl in Hlast. unfold offset_jump in Hlast. lia. }
  exists k. replace (S k - 1)%nat with k in Hlast by lia.
  split; [done|]. split; [lia|].
  intros j Hj. destruct (decide (k ≤ j)%nat) as [|Hn]; [done|].
  exfalso. specialize (Hlt j). lia.
Qed.

(** C1, as the code has it.  When every page succeeds and reports the total
    15, the walk sends three requests, at the offsets 0, 10 and 20, and
    returns the three bodies it received. *)
Theorem fetch_total_15 cfg prov st url key :
  reports_total 15 →
  cfg !! "url" = Some url →
  cfg !! "api_key" = Some key →
  ∃ new w',
    (∀ fuel, (3 ≤ fuel)%nat →
       _fetch_data fuel cfg prov st =
         Done (Return (bodies new)) (Net w' (log st ++ new))) ∧
    offsets new = [Some 0; Some 10; Some 20] ∧
    length (bodies new) = 3%nat.
Proof.
  intros HT Hu Hk.
  destruct (walk_total 15 url {[ "apikey" := key ]} prov HT
              2 (first_locals prov) st)
    as (n & new & w' & Hn & Hrun & Hoff & Hlt & Hlast & Hlen).
  { simpl. unfold offset_jump. lia. }
  simpl in *. unfold offset_jump in *.
  assert (n = 3%nat) as ->.
  { destruct (decide (n = 3%nat)) as [|Hne]; [done|]. lia. }
  exists new, w'. split; [|split].
  - intros fuel Hf. rewrite (_fetch_data_loop _ _ _ _ _ _ Hu Hk).
    by apply Hrun.
  - exact Hoff.
  - exact Hlen.
Qed.

(** C5.  When the first page succeeds and reports the total 0,
    [_fetch_data] returns the empty list after this one request. *)
Theorem fetch_total_zero cfg prov st url key r w :
  cfg !! "url" = Some url →
  cfg !! "api_key" = Some key →
  let req := page_request url {[ "apikey" := key ]} (first_locals prov) in
  requests_get req (world st) = (Answers r, w) →
  ok r = true →
  reported_total (text r) = Some 0 →
  ∀ fuel, (1 ≤ fuel)%nat →
    _fetch_data fuel cfg prov st =
      Done (Return []) (Net w (log st ++ [(req, Answers r)])).
Proof.
  intros Hu Hk req Hget Hok Htot [|fuel] Hf; [lia|].
  rewrite (_fetch_data_loop _ _ _ _ _ _ Hu Hk). simpl.
  by rewrite (fetch_page_total _ _ _ _ _ _ _ _ Hget Hok Htot).
Qed.

(** ** Failures during the walk *)

(** C6, as the code has it.  A walk has sent [n] requests and is still
    running, holding the pages it accumulated in its local variables [l];
    the next request fails with an exception [err] that is a
    [ConnectionError] of the requests library or of one of its subclasses
    (a read timeout is not).  Then [_fetch_data] raises the
    [apiConnectionError] built from [err]: the pages held in [l] are not
    returned, and the failed request is the last one sent. *)
Theorem fetch_connection_failure n cfg prov st url key l st1 err w :
  cfg !! "url" = Some url →
  cfg !! "api_key" = Some key →
  _fetch_data n cfg prov st = Running l st1 →
  let req := page_request url {[ "apikey" := key ]} l in
  requests_get req (world st1) = (Fails err, w) →
  is_ConnectionError (exc_class err) = true →
  ∀ m, (n < m)%nat →
    _fetch_data m cfg prov st =
      Done (Raise (IngestApiError apiConnectionError
                     (RequestException err) None))
        (Net w (log st1 ++ [(req, Fails err)])).
Proof.
  intros Hu Hk Hrun req Hget Hcls m Hm.
  replace m with (n + S (m - n - 1))%nat by lia.
  rewrite (fetch_running_more _ _ _ _ _ _ _ _ Hu Hk Hrun). simpl.
  by rewrite (fetch_page_connection_error _ _ _ _ _ _ _ Hget Hcls).
Qed.

(** C3, as the code has it.  A walk has sent [n] requests and is still
    running; the next request is answered by a response that is not a
    success and whose body begins with ['Error: No API Key provided'].
    Then [_fetch_data] raises the [apiAuthError] built from the body,
    whatever the status code, 404 included. *)
Theorem fetch_no_api_key n cfg prov st url key l st1 r w :
  cfg !! "url" = Some url →
  cfg !! "api_key" = Some key →
  _fetch_data n cfg prov st = Running l st1 →
  let req := page_request url {[ "apikey" := key ]} l in
  requests_get req (world st1) = (Answers r, w) →
  ok r = false →
  starts_with "Error: No API Key provided" (text r) = true →
  ∀ m, (n < m)%nat →
    _fetch_data m cfg prov st =
      Done (Raise (IngestApiError apiAuthError
                     (Exception (text r)) (Some prov)))
        (Net w (log st1 ++ [(req, Answers r)])).
Proof.
  intros Hu Hk Hrun req Hget Hok Hmark m Hm.
  replace m with (n + S (m - n - 1))%nat by lia.
  rewrite (fetch_running_more _ _ _ _ _ _ _ _ Hu Hk Hrun). simpl.
  rewrite (fetch_page_not_ok _ _ _ _ _ _ _ Hget Hok).
  unfold no_api_key_re. by rewrite match_literal, Hmark.
Qed.

(** What the loop does with a success whose body reports no total: the
    [group()] of a search that found nothing is taken, which raises
    [AttributeError]; the test [results_str is None] is never reached with
    [None]. *)
Lemma fetch_no_total n cfg prov st url key l st1 r w :
  cfg !! "url" = Some url →
  cfg !! "api_key" = Some key →
  _fetch_data n cfg prov st = Running l st1 →
  let req := page_request url {[ "apikey" := key ]} l in
  requests_get req (world st1) = (Answers r, w) →
  ok r = true →
  reported_total (text r) = None →
  ∀ m, (n < m)%nat →
    _fetch_data m cfg prov st =
      Done (Raise (AttributeError "'NoneType' object has no attribute 'group'"))
        (Net w (log st1 ++ [(req, Answers r)])).
Proof.
  intros Hu Hk Hrun req Hget Hok Htot m Hm.
  replace m with (n + S (m - n - 1))%nat by lia.
  rewrite (fetch_running_more _ _ _ _ _ _ _ _ Hu Hk Hrun). simpl.
  by rewrite (fetch_page_no_total _ _ _ _ _ _ _ Hget Hok Htot).
Qed.

(** ** The ingest cycle *)

Lemma parse_items_app prov before :
  ∀ rest acc st acc' st',
    parse_items prov before acc st = (Return acc', st') →
    parse_items prov (before ++ rest) acc st = parse_items prov rest acc' st'.
Proof.
  induction before as [|item before IH]; intros rest acc st acc' st' H.
  - simpl in *. unfold ret in H. by inversion H.
  - simpl in *. unfold bind in *.
    destruct (try_except _ _ st) as [[a|e] st1]; [|discriminate].
    by apply IH.
Qed.

(** C7.  [_fetch_data] has returned the pages [before ++ item :: after]; the
    pages of [before] are parsed, and the parser (its selection or its
    [parse]) raises [ex] on [item].  Then [_update] raises the
    [parseMessageError] built from [ex], the provider and [item]: no parsed
    item is returned, those of [before] included. *)
Theorem update_parse_failure fuel prov update st st1 st2 before item after
    parsed ex w :
  _fetch_data fuel (default ∅ (config prov)) prov st =
    Done (Return (before ++ item :: after)) st1 →
  parse_items prov before [] st1 = (Return parsed, st2) →
  parser_raises prov item (world st2) ex w →
  _update fuel prov update st =
    Done (Raise (ParserError_parseMessageError ex prov item))
      (Net w (log st2)).
Proof.
  intros Hfetch Hbefore Hraise. unfold _update. rewrite Hfetch.
  rewrite (parse_items_app _ _ _ _ _ _ _ Hbefore). simpl.
  unfold bind, try_except, raise.
  destruct Hraise as [H1|(p & w1 & H1 & H2)]; rewrite H1; simpl.
  - done.
  - by rewrite H2.
Qed.

(** ** The connectivity test *)

(** C8, as the code has it.  [_test] sends one request and classifies
    what comes back: an exception that is a [ConnectionError] of the
    requests library or of one of its subclasses (a read timeout is not)
    raises [apiConnectionError] built from it; a response
    that is not a success raises [apiNotFoundError] when its status is 404
    and [apiGeneralError] otherwise, each built from the reason phrase; a
    success returns without raising. *)
Theorem test_classification prov st url key res w :
  default ∅ (config prov) !! "url" = Some url →
  default ∅ (config prov) !! "api_key" = Some key →
  requests_get (probe_request url key) (world st) = (res, w) →
  let st' := Net w (log st ++ [(probe_request url key, res)]) in
  (∀ err, res = Fails err → is_ConnectionError (exc_class err) = true →
     _test prov st =
       (Raise (IngestApiError apiConnectionError (RequestException err) None),
        st')) ∧
  (∀ r, res = Answers r → ok r = false → status_code r = 404 →
     _test prov st =
       (Raise (IngestApiError apiNotFoundError (Exception (reason r))
                 (Some prov)), st')) ∧
  (∀ r, res = Answers r → ok r = false → status_code r ≠ 404 →
     _test prov st =
       (Raise (IngestApiError apiGeneralError (Exception (reason r))
                 (Some prov)), st')) ∧
  (∀ r, res = Answers r → ok r = true → _test prov st = (Return tt, st')).
Proof.
  intros Hu Hk Hget st'. unfold _test, bind, getitem, try_except, get.
  rewrite Hu, Hk. simpl. fold (probe_request url key). rewrite Hget.
  repeat split.
  - intros err -> Hcls. simpl. by rewrite Hcls.
  - intros r -> Hok H404. simpl. rewrite Hok. simpl.
    by rewrite (proj2 (Z.eqb_eq _ _) H404).
  - intros r -> Hok H404. simpl. rewrite Hok. simpl.
    by rewrite (proj2 (Z.eqb_neq _ _) H404).
  - intros r -> Hok. simpl. by rewrite Hok.
Qed.

(** C10.  [_test] never raises [apiAuthError]; a response that is not a
    success is classified by its status alone, [apiNotFoundError] for 404
    and [apiGeneralError] otherwise, whatever its body says. *)
Theorem test_never_AuthError prov st :
  (∀ ex p, (_test prov st).1 ≠ Raise (IngestApiError apiAuthError ex p)) ∧
  (∀ url key r w,
     default ∅ (config prov) !! "url" = Some url →
     default ∅ (config prov) !! "api_key" = Some key →
     requests_get (probe_request url key) (world st) = (Answers r, w) →
     ok r = false →
     (_test prov st).1 =
       Raise (IngestApiError
                (if status_code r =? 404 then apiNotFoundError
                 else apiGeneralError)
                (Exception (reason r)) (Some prov))).
Proof.
  split.
  - intros ex p. unfold _test, bind, getitem, try_except, get, raise, ret.
    destruct (default ∅ (config prov) !! "url") as [url|]; [|done].
    destruct (default ∅ (config prov) !! "api_key") as [key|]; [|done].
    destruct (requests_get _ _) as [[r|err] w]; simpl.
    + destruct (ok r); simpl; [done|]. by destruct (_ =? 404).
    + by destruct (is_ConnectionError _).
  - intros url key r w Hu Hk Hget Hok.
    unfold _test, bind, getitem, try_except, get.
    rewrite Hu, Hk. simpl. fold (probe_request url key). rewrite Hget.
    simpl. rewrite Hok. simpl. by destruct (_ =? 404).
Qed.

(** ** Reading the total of a body *)

Lemma int_digits_pretty_go (x : N) :
  ∀ s, ∃ k : Z, 0 ≤ k ∧
    ∀ acc, int_digits acc (pretty_N_go x s)
           = int_digits (acc * 10 ^ k + Z.of_N x) s.
Proof.
  induction (N.lt_wf_0 x) as [x _ IH]; intros s.
  destruct (decide (x = 0)%N) as [->|Hx].
  - exists 0. split; [done|]. intros acc. rewrite pretty_N_go_0.
    f_equal. lia.
  - rewrite pretty_N_go_step by lia.
    destruct (IH (x `div` 10)%N) with
      (s := String (pretty_N_char (x `mod` 10)) s) as (k & Hk & Hacc).
    { apply N.div_lt; lia. }
    exists (k + 1). split; [lia|]. intros acc. rewrite Hacc. simpl.
    assert (digit_value (pretty_N_char (x `mod` 10))
            = Some (Z.of_N (x `mod` 10))) as ->.
    { pose proof (N.mod_lt x 10 ltac:(done)) as Hlt.
      destruct (x `mod` 10)%N as [|d] eqn:E; [done|].
      do 4 (destruct d as [d|d|]; try done; try lia). }
    f_equal. rewrite Z.pow_add_r, Z.pow_1_r by lia.
    rewrite (N.div_mod x 10) at 3 by done.
    rewrite N2Z.inj_add, N2Z.inj_mul. simpl Z.of_N. lia.
Qed.

Lemma all_digits_pretty_go (x : N) :
  ∀ s, all_digits s = true → all_digits (pretty_N_go x s) = true.
Proof.
  induction (N.lt_wf_0 x) as [x _ IH]; intros s Hs.
  destruct (decide (x = 0)%N) as [->|Hx]; [by rewrite pretty_N_go_0|].
  rewrite pretty_N_go_step by lia. apply IH.
  { apply N.div_lt; lia. }
  simpl. rewrite Hs, andb_true_r.
  pose proof (N.mod_lt x 10 ltac:(done)) as Hlt.
  destruct (x `mod` 10)%N as [|d] eqn:E; [done|].
  do 4 (destruct d as [d|d|]; try done; try lia).
Qed.

Lemma pretty_N_go_nonempty (x : N) :
  ∀ s, s ≠ EmptyString → pretty_N_go x s ≠ EmptyString.
Proof.
  induction (N.lt_wf_0 x) as [x _ IH]; intros s Hs.
  destruct (decide (x = 0)%N) as [->|Hx]; [by rewrite pretty_N_go_0|].
  rewrite pretty_N_go_step by lia. apply IH; [apply N.div_lt; lia|done].
Qed.

(** The decimal text of a number: digits only, not empty, read back by
    [int_digits] as the number. *)
Lemma pretty_N_digits (n : N) :
  all_digits (pretty n) = true ∧ pretty n ≠ EmptyString ∧
  int_digits 0 (pretty n) = Some (Z.of_N n).
Proof.
  unfold pretty, pretty_N. destruct (decide (n = 0)%N) as [->|Hn]; [done|].
  split; [by apply all_digits_pretty_go|]. split.
  - rewrite pretty_N_go_step by lia. by apply pretty_N_go_nonempty.
  - destruct (int_digits_pretty_go n EmptyString) as (k & _ & H).
    rewrite H. simpl. f_equal; lia.
Qed.

Lemma append_cons c (s t : string) : String c s +:+ t = String c (s +:+ t).
Proof. reflexivity. Qed.

Lemma append_empty_l (t : string) : EmptyString +:+ t = t.
Proof. reflexivity. Qed.

Lemma append_empty_r (s : string) : s +:+ EmptyString = s.
Proof.
  induction s as [|c s IH]; [done|]. by rewrite append_cons, IH.
Qed.

Lemma every_app f s1 s2 :
  every f (s1 +:+ s2) = every f s1 && every f s2.
Proof.
  induction s1 as [|c s1 IH]; [done|].
  rewrite append_cons. simpl. by rewrite IH, andb_assoc.
Qed.

Lemma every_spaces f k : f " "%char = true → every f (spaces k) = true.
Proof. intros Hf. induction k as [|k IH]; simpl; [done|]. by rewrite Hf. Qed.

Lemma every_digit d : every re.digit d = all_digits d.
Proof. induction d as [|c d IH]; simpl; [done|by rewrite IH]. Qed.

(** A greedy repetition followed by something that succeeds takes the
    whole run of the class. *)
Lemma greedy_every f k d rest m :
  every f d = true →
  heads f rest = false →
  k rest = Some m →
  re.greedy f k (d +:+ rest) = Some (d +:+ m).
Proof.
  intros Hd Hrest Hk. induction d as [|c d IH].
  - rewrite !append_empty_l.
    destruct rest as [|c rest]; simpl in *; [done|]. by rewrite Hrest.
  - simpl in Hd. apply andb_prop in Hd as [Hc Hd].
    rewrite !append_cons. simpl. by rewrite Hc, (IH Hd).
Qed.

Lemma match_here_literal lit p s :
  re.match_here (re.literal lit ++ p) (lit +:+ s)
  = (String.append lit) <$> re.match_here p s.
Proof.
  induction lit as [|c lit IH].
  - rewrite append_empty_l. simpl. by destruct (re.match_here p s).
  - rewrite append_cons. simpl. rewrite Ascii.eqb_refl, IH.
    by destruct (re.match_here p s).
Qed.

Lemma search_total_skip pre s :
  occurs dquote pre = false →
  re.search total_re (pre +:+ s) = re.search total_re s.
Proof.
  induction pre as [|c pre IH]; [done|].
  intros H. simpl in H. apply orb_false_elim in H as [Hc Hpre].
  rewrite append_cons. simpl.
  change (Ascii.eqb dquote c) with (Ascii.eqb "034" c) in Hc.
  rewrite Hc. by apply IH.
Qed.

Lemma search_number_skip pre s :
  every (λ c, negb (re.digit c)) pre = true →
  re.search number_re (pre +:+ s) = re.search number_re s.
Proof.
  induction pre as [|c pre IH]; [done|].
  intros H. simpl in H. apply andb_prop in H as [Hc Hpre].
  apply negb_true_iff in Hc. rewrite append_cons. simpl.
  rewrite Hc. by apply IH.
Qed.

Lemma search_number_all c d :
  all_digits (String c d) = true →
  re.search number_re (String c d) = Some (String c d).
Proof.
  simpl. intros H. apply andb_prop in H as [Hc Hd]. rewrite Hc.
  rewrite <- (append_empty_r d) at 1.
  rewrite (greedy_every _ _ d EmptyString EmptyString);
    [by rewrite append_empty_r|by rewrite every_digit|done|done].
Qed.

Lemma digit_not_space c : re.digit c = true → Ascii.eqb " " c = false.
Proof.
  intros H. destruct (Ascii.eqb_spec " " c) as [<-|]; [|done].
  discriminate.
Qed.

Lemma search_here p s m :
  re.match_here p s = Some m → re.search p s = Some m.
Proof. intros H. destruct s; simpl; by rewrite H. Qed.

(** Reading a body that begins, after text without a double quote, with
    the key, a colon, blanks and a run of digits. *)
Lemma reported_total_digits pre k c d rest :
  occurs dquote pre = false →
  all_digits (String c d) = true →
  starts_with_digit rest = false →
  reported_total
    (pre +:+ quoted "total" +:+ ":" +:+ spaces k +:+ String c d +:+ rest)
  = int_digits 0 (String c d).
Proof.
  intros Hpre Hall Hrest.
  pose proof Hall as Hc. simpl in Hc. apply andb_prop in Hc as [Hc _].
  set (Q := String dquote ("total" +:+ String dquote ":")).
  unfold reported_total. rewrite search_total_skip by done.
  change (quoted "total" +:+ ":" +:+ spaces k +:+ String c d +:+ rest)
    with (Q +:+ spaces k +:+ String c d +:+ rest).
  assert (re.match_here total_re (Q +:+ spaces k +:+ String c d +:+ rest)
          = Some (Q +:+ spaces k +:+ String c d)) as Hhere.
  { unfold total_re. fold Q. rewrite match_here_literal.
    change (re.match_here [re.Atom (Ascii.eqb " ") re.Star;
                           re.Atom re.digit re.Star])
      with (re.greedy (Ascii.eqb " ")
              (re.greedy re.digit (re.match_here []))).
    rewrite (greedy_every _ _ (spaces k) _ (String c d)); [done|..].
    - by apply every_spaces.
    - rewrite append_cons. simpl. by apply digit_not_space.
    - rewrite (greedy_every _ _ (String c d) rest EmptyString);
        [by rewrite append_empty_r|by rewrite every_digit|done|done]. }
  rewrite (search_here _ _ _ Hhere). simpl.
  rewrite search_number_skip by done.
  rewrite search_number_skip
    by (apply every_spaces; done).
  by rewrite search_number_all.
Qed.


(** ** Every walk *)

Lemma fetch_page_other_error url headers prov l st err w :
  requests_get (page_request url headers l) (world st) = (Fails err, w) →
  is_ConnectionError (exc_class err) = false →
  fetch_page url headers prov l st =
    (Raise (RequestException err),
     Net w (log st ++ [(page_request url headers l, Fails err)])).
Proof.
  intros Hget Hcls. unfold fetch_page, bind, try_except, get.
  unfold page_request in *. rewrite Hget. simpl. by rewrite Hcls.
Qed.

(** What one round of the loop does, by the answer it gets. *)
Lemma fetch_page_cases url headers prov l st :
  ∃ ans w,
    requests_get (page_request url headers l) (world st) = (ans, w) ∧
    match entry_total (page_request url headers l, ans) with
    | Some T =>
        ∃ r, ans = Answers r ∧
          fetch_page url headers prov l st =
            (Return
               (if offset l >=? T then
                  inr (if T >? 0 then items l ++ [text r] else items l)
                else
                  inl (Locals (<[ "offset" := PInt (offset l) ]> (params l))
                         (if T >? 0 then items l ++ [text r] else items l)
                         (offset l + offset_jump))),
             Net w (log st ++ [(page_request url headers l, ans)]))
    | None =>
        ∃ ex,
          fetch_page url headers prov l st =
            (Raise ex, Net w (log st ++ [(page_request url headers l, ans)])) ∧
          ((∃ err, ex = RequestException err) ∨
           (∃ kind x p, ex = IngestApiError kind x p) ∨
           (∃ m, ex = AttributeError m))
    end.
Proof.
  destruct (requests_get (page_request url headers l) (world st))
    as [[r|err] w] eqn:Hget;
    [exists (Answers r), w|exists (Fails err), w];
    (split; [done|]); unfold entry_total; simpl.
  - destruct (ok r) eqn:Hok.
    + destruct (reported_total (text r)) as [T|] eqn:Htot.
      * exists r. split; [done|].
        rewrite (fetch_page_total _ _ _ _ _ _ _ _ Hget Hok Htot). simpl.
        by destruct (offset l >=? T).
      * eexists. split; [by apply fetch_page_no_total|].
        right. right. by eexists.
    + eexists. split; [by apply fetch_page_not_ok|].
      right. left. destruct (truth _); [by eexists _, _, _|].
      destruct (status_code r =? 404); by eexists _, _, _.
  - destruct (is_ConnectionError (exc_class err)) eqn:Hcls.
    + eexists. split; [by apply fetch_page_connection_error|].
      right. left. by eexists _, _, _.
    + eexists. split; [by apply fetch_page_other_error|].
      left. by eexists.
Qed.

Lemma kept_bodies_cons e new :
  kept_bodies (e :: new) =
    match e.2, entry_total e with
    | Answers r, Some T => if T >? 0 then [text r] else []
    | _, _ => []
    end ++ kept_bodies new.
Proof.
  unfold kept_bodies. simpl.
  destruct (e.2) as [r|err]; [|done].
  destruct (entry_total e) as [T|]; [|done]. by destruct (T >? 0).
Qed.

(** The invariant of the loop, for any endpoint and any fuel: the log
    grows by the requests of the successive offsets; every answer but the
    last made the loop go round again; the items held are the bodies of
    the answers with a positive total; the last answer decides how the
    walk ended. *)
Lemma walk_invariant url headers prov :
  ∀ (n : nat) l st,
    ∃ new,
      log (run_state (while_True n (fetch_page url headers prov) l st))
        = log st ++ new ∧
      (length new ≤ n)%nat ∧
      (∀ (i : nat) e, new !! i = Some e →
         e.1 = Request url
                 (<[ "offset" := PInt (offset l + offset_jump * Z.of_nat i) ]>
                    (params l)) headers 30 ∧
         ∃ w w', requests_get e.1 w = (e.2, w')) ∧
      match while_True n (fetch_page url headers prov) l st with
      | Running l' _ =>
          length new = n ∧
          Forall (λ e, entry_continues e = true) new ∧
          items l' = items l ++ kept_bodies new ∧
          offset l' = offset l + offset_jump * Z.of_nat n
      | Done (Return pages) _ =>
          ∃ init last, new = init ++ [last] ∧
            Forall (λ e, entry_continues e = true) init ∧
            entry_continues last = false ∧
            is_Some (entry_total last) ∧
            pages = items l ++ kept_bodies new
      | Done (Raise ex) _ =>
          ∃ init last, new = init ++ [last] ∧
            Forall (λ e, entry_continues e = true) init ∧
            entry_total last = None ∧
            ((∃ err, ex = RequestException err) ∨
             (∃ kind x p, ex = IngestApiError kind x p) ∨
             (∃ m, ex = AttributeError m))
      end.
Proof.
  induction n as [|n IH]; intros l st.
  { exists []. simpl. rewrite !app_nil_r. repeat split; try done.
    unfold offset_jump. lia. }
  destruct (fetch_page_cases url headers prov l st)
    as (ans & w & Hget & Hcase).
  set (e0 := (page_request url headers l, ans)) in *.
  assert (e0.1 = Request url
            (<[ "offset" := PInt (offset l + offset_jump * Z.of_nat 0) ]>
               (params l)) headers 30) as He0.
  { simpl. unfold page_request. do 3 f_equal. unfold offset_jump. lia. }
  assert (∃ w0 w', requests_get e0.1 w0 = (e0.2, w')) as Hfrom
    by (by exists (world st), w).
  assert (∀ (i : nat) e, [e0] !! i = Some e →
            e.1 = Request url
                    (<[ "offset" := PInt (offset l + offset_jump * Z.of_nat i) ]>
                       (params l)) headers 30 ∧
            ∃ w0 w', requests_get e.1 w0 = (e.2, w')) as Hone.
  { intros [|i] e; [|done]. by intros [= <-]. }
  assert (offset_of e0.1 = Some (offset l)) as Hoff
    by apply offset_of_page_request.
  simpl. destruct (entry_total e0) as [T|] eqn:Htot.
  - destruct Hcase as (r & -> & Hpage). rewrite Hpage.
    destruct (offset l >=? T) eqn:Hge.
    + exists [e0]. split; [done|]. split; [simpl; lia|]. split; [done|].
      exists [], e0. split; [done|]. split; [done|]. split; [|split].
      * unfold entry_continues. rewrite Htot, Hoff.
        apply Z.ltb_ge. by apply Z.geb_le.
      * by rewrite Htot.
      * rewrite kept_bodies_cons, Htot. simpl.
        destruct (T >? 0); by rewrite ?app_nil_r.
    + assert (entry_continues e0 = true) as Hcont.
      { unfold entry_continues. rewrite Htot, Hoff. apply Z.ltb_lt.
        rewrite Z.geb_leb in Hge. by apply Z.leb_gt. }
      set (l' := Locals (<[ "offset" := PInt (offset l) ]> (params l))
                   (if T >? 0 then items l ++ [text r] else items l)
                   (offset l + offset_jump)) in *.
      set (st' := Net w (log st ++ [e0])) in *.
      assert (items l' = items l ++ kept_bodies [e0]) as Hitems.
      { rewrite kept_bodies_cons, Htot. subst l'. simpl.
        destruct (T >? 0); by rewrite ?app_nil_r. }
      destruct (IH l' st') as (new & Hlog & Hlen & Hreq & Hmatch).
      exists (e0 :: new). split; [|split; [|split]].
      * rewrite Hlog. subst st'. simpl. by rewrite <- app_assoc.
      * simpl. lia.
      * intros [|i] e.
        { by intros [= <-]. }
        intros Hi. destruct (Hreq i e Hi) as [Hq Hw]. split; [|done].
        rewrite Hq. subst l'. simpl. rewrite insert_insert_eq.
        do 3 f_equal. unfold offset_jump. lia.
      * destruct (while_True n (fetch_page url headers prov) l' st')
          as [[pages|ex] st2|l2 st2].
        { destruct Hmatch as (init & last & -> & Hinit & Hlast & Hsome & ->).
          exists (e0 :: init), last. split; [done|].
          split; [by constructor|]. split; [done|]. split; [done|].
          rewrite Hitems, <- app_assoc. f_equal.
          by rewrite (kept_bodies_cons e0 (init ++ [last])),
            (kept_bodies_cons e0 []), app_nil_r. }
        { destruct Hmatch as (init & last & -> & Hinit & Hlast & Hkind).
          exists (e0 :: init), last. split; [done|].
          split; [by constructor|]. by split. }
        { destruct Hmatch as (Hn & Hall & Hit & Ho).
          split; [simpl; lia|]. split; [by constructor|]. split.
          - rewrite Hit, Hitems, <- app_assoc. f_equal.
            by rewrite (kept_bodies_cons e0 new),
              (kept_bodies_cons e0 []), app_nil_r.
          - rewrite Ho. subst l'. simpl. unfold offset_jump. lia. }
  - destruct Hcase as (ex & Hpage & Hkind). rewrite Hpage.
    exists [e0]. split; [done|]. split; [simpl; lia|]. split; [done|].
    by exists [], e0.
Qed.

(** X1.  Whatever the endpoint answers and however long the walk has run,
    its requests are those of the successive pages: request number [i]
    (from 0) goes to the configured url with the header [apikey], the
    timeout 30 and the parameters [start] (the provider's [last_updated],
    or the epoch when it has none, formatted), [limit] 10 and [offset]
    10 * [i]; and no more requests are sent than rounds were run. *)
Theorem fetch_requests_shape fuel cfg prov st url key :
  cfg !! "url" = Some url →
  cfg !! "api_key" = Some key →
  ∃ new,
    log (run_state (_fetch_data fuel cfg prov st)) = log st ++ new ∧
    (length new ≤ fuel)%nat ∧
    ∀ (i : nat) e, new !! i = Some e →
      e.1 = Request url
              (<[ "offset" := PInt (offset_jump * Z.of_nat i) ]>
                 {[ "start" :=
                      PStr (strftime (default (utcfromtimestamp 0)
                                        (last_updated prov))
                              "%Y-%m-%dT%H:%M:%S");
                    "limit" := PInt 10 ]})
              {[ "apikey" := key ]} 30.
Proof.
  intros Hu Hk. rewrite (_fetch_data_loop _ _ _ _ _ _ Hu Hk).
  destruct (walk_invariant url {[ "apikey" := key ]} prov fuel
              (first_locals prov) st) as (new & Hlog & Hlen & Hreq & _).
  exists new. split; [done|]. split; [done|].
  intros i e Hi. by destruct (Hreq i e Hi) as [-> _].
Qed.

(** X2.  When the walk returns, every answer it got was a success with a
    readable total; each but the last reported a total above the offset
    asked for and the last did not; and the pages returned are, in order,
    the bodies of the answers that reported a positive total. *)
Theorem fetch_returns_kept_bodies fuel cfg prov st url key pages st' :
  cfg !! "url" = Some url →
  cfg !! "api_key" = Some key →
  _fetch_data fuel cfg prov st = Done (Return pages) st' →
  ∃ init last,
    log st' = log st ++ init ++ [last] ∧
    Forall (λ e, entry_continues e = true) init ∧
    entry_continues last = false ∧
    is_Some (entry_total last) ∧
    pages = kept_bodies (init ++ [last]).
Proof.
  intros Hu Hk Hret. rewrite (_fetch_data_loop _ _ _ _ _ _ Hu Hk) in Hret.
  destruct (walk_invariant url {[ "apikey" := key ]} prov fuel
              (first_locals prov) st) as (new & Hlog & _ & _ & Hmatch).
  rewrite Hret in Hlog, Hmatch. simpl in Hlog.
  destruct Hmatch as (init & last & -> & Hinit & Hlast & Hsome & ->).
  by exists init, last.
Qed.

(** X3.  If no success of the endpoint ever reports a total above [B],
    the walk ends, by a return or by an exception, after at most
    [(B + 9) / 10 + 1] requests, whatever else the endpoint answers. *)
Theorem fetch_bounded_total B fuel cfg prov st url key :
  (∀ req w r w' T,
     requests_get req w = (Answers r, w') → ok r = true →
     reported_total (text r) = Some T → T ≤ B) →
  cfg !! "url" = Some url →
  cfg !! "api_key" = Some key →
  (Z.to_nat ((B + 9) / 10) < fuel)%nat →
  ∃ r st',
    _fetch_data fuel cfg prov st = Done r st' ∧
    (length (log st') ≤ length (log st) + Z.to_nat ((B + 9) / 10) + 1)%nat.
Proof.
  intros HB Hu Hk Hfuel. set (N := Z.to_nat ((B + 9) / 10)) in *.
  destruct (walk_invariant url {[ "apikey" := key ]} prov (S N)
              (first_locals prov) st) as (new & Hlog & Hlen & Hreq & Hmatch).
  destruct (while_True (S N) _ (first_locals prov) st)
    as [r st'|l' st'] eqn:Hrun.
  - exists r, st'. split.
    + apply (_fetch_data_Done_more (S N)); [|lia].
      by rewrite (_fetch_data_loop _ _ _ _ _ _ Hu Hk).
    + simpl in Hlog. rewrite Hlog, length_app. lia.
  - exfalso. destruct Hmatch as (Hn & Hall & _ & _).
    destruct (lookup_lt_is_Some_2 new N) as [e He]; [lia|].
    destruct (Hreq N e He) as (Hq & w & w' & Hget).
    rewrite Forall_lookup in Hall. specialize (Hall N e He).
    unfold entry_continues, entry_total in Hall. rewrite Hq in Hall.
    destruct (e.2) as [r|err]; [|done].
    destruct (ok r) eqn:Hok; [|done].
    destruct (reported_total (text r)) as [T|] eqn:HT; [|done].
    unfold offset_of in Hall. simpl in Hall.
    rewrite lookup_insert_eq in Hall. apply Z.ltb_lt in Hall.
    specialize (HB _ _ _ _ _ Hget Hok HT).
    pose proof (Z.mul_succ_div_gt (B + 9) 10 ltac:(done)) as Hdiv.
    unfold offset_jump in Hall. subst N. lia.
Qed.

(** X4.  If every answer of the endpoint is a success that reports a total
    above the offset asked for, the walk never ends: after any number of
    rounds it is still running, one request sent per round. *)
Theorem fetch_unbounded fuel cfg prov st url key :
  (∀ req w, ∃ r w' T,
     requests_get req w = (Answers r, w') ∧ ok r = true ∧
     reported_total (text r) = Some T ∧
     ∀ o, offset_of req = Some o → o < T) →
  cfg !! "url" = Some url →
  cfg !! "api_key" = Some key →
  ∃ l st',
    _fetch_data fuel cfg prov st = Running l st' ∧
    offset l = offset_jump * Z.of_nat fuel ∧
    (length (log st') = length (log st) + fuel)%nat.
Proof.
  intros Hahead Hu Hk. rewrite (_fetch_data_loop _ _ _ _ _ _ Hu Hk).
  destruct (walk_invariant url {[ "apikey" := key ]} prov fuel
              (first_locals prov) st) as (new & Hlog & Hlen & Hreq & Hmatch).
  assert (∀ (i : nat) e, new !! i = Some e → entry_continues e = true)
    as Hcont.
  { intros i e He. destruct (Hreq i e He) as (Hq & w & w' & Hget).
    destruct (Hahead e.1 w) as (r & w2 & T & Hget' & Hok & HT & Ho).
    rewrite Hget in Hget'. injection Hget' as Hans _.
    unfold entry_continues, entry_total. rewrite Hans, Hok, HT.
    destruct (offset_of e.1) as [o|] eqn:Hoff.
    - apply Z.ltb_lt. by apply Ho.
    - rewrite Hq in Hoff. unfold offset_of in Hoff. simpl in Hoff.
      by rewrite lookup_insert_eq in Hoff. }
  destruct (while_True fuel _ (first_locals prov) st)
    as [[pages|ex] st'|l' st'].
  - exfalso. destruct Hmatch as (init & last & -> & _ & Hlast & _).
    rewrite (Hcont (length init) last) in Hlast; [done|].
    by rewrite lookup_app_r, Nat.sub_diag.
  - exfalso. destruct Hmatch as (init & last & -> & _ & Hlast & _).
    pose proof (Hcont (length init) last) as Hc.
    rewrite lookup_app_r, Nat.sub_diag in Hc by done.
    specialize (Hc eq_refl). unfold entry_continues in Hc.
    by rewrite Hlast in Hc.
  - destruct Hmatch as (Hn & _ & _ & Ho). exists l', st'.
    split; [done|]. split; [by rewrite Ho|].
    simpl in Hlog. rewrite Hlog, length_app. lia.
Qed.

(** X5.  A success whose total has no more digits than [int] takes on
    every interpreter never makes the walk raise an [IngestApiError] or a
    [ValueError].  A walk has sent [n] requests and is still running; the
    next answer is such a success.  If no total can be read from its body the
    walk raises [AttributeError]; otherwise it appends the body when the
    total is positive, and returns when the offset has reached the total
    or goes on to the next offset with the same parameters. *)
Theorem fetch_success_outcomes n cfg prov st url key l st1 r w :
  cfg !! "url" = Some url →
  cfg !! "api_key" = Some key →
  _fetch_data n cfg prov st = Running l st1 →
  let req := page_request url {[ "apikey" := key ]} l in
  requests_get req (world st1) = (Answers r, w) →
  ok r = true →
  within_int_limit (text r) →
  let st' := Net w (log st1 ++ [(req, Answers r)]) in
  match reported_total (text r) with
  | None =>
      _fetch_data (S n) cfg prov st =
        Done (Raise (AttributeError
                       "'NoneType' object has no attribute 'group'")) st'
  | Some T =>
      let items' := if T >? 0 then items l ++ [text r] else items l in
      _fetch_data (S n) cfg prov st =
        if offset l >=? T then Done (Return items') st'
        else Running (Locals (req_params req) items' (offset l + offset_jump))
               st'
  end.
Proof.
  intros Hu Hk Hrun req Hget Hok _ st'.
  replace (S n) with (n + 1)%nat by lia.
  rewrite (fetch_running_more _ _ _ _ _ _ _ _ Hu Hk Hrun). simpl.
  destruct (reported_total (text r)) as [T|] eqn:Htot.
  - rewrite (fetch_page_total _ _ _ _ _ _ _ _ Hget Hok Htot). simpl.
    by destruct (offset l >=? T).
  - by rewrite (fetch_page_no_total _ _ _ _ _ _ _ Hget Hok Htot).
Qed.

(** X6.  A walk has sent [n] requests and is still running; the next
    answer is not a success and its body does not begin with the marker of
    the missing key.  Then the walk raises [apiNotFoundError] when the
    status is 404 and [apiGeneralError] otherwise, built from the reason
    phrase, not from the body. *)
Theorem fetch_not_ok_by_status n cfg prov st url key l st1 r w :
  cfg !! "url" = Some url →
  cfg !! "api_key" = Some key →
  _fetch_data n cfg prov st = Running l st1 →
  let req := page_request url {[ "apikey" := key ]} l in
  requests_get req (world st1) = (Answers r, w) →
  ok r = false →
  starts_with "Error: No API Key provided" (text r) = false →
  ∀ m, (n < m)%nat →
    _fetch_data m cfg prov st =
      Done (Raise (IngestApiError
                     (if status_code r =? 404 then apiNotFoundError
                      else apiGeneralError)
                     (Exception (reason r)) (Some prov)))
        (Net w (log st1 ++ [(req, Answers r)])).
Proof.
  intros Hu Hk Hrun req Hget Hok Hmark m Hm.
  replace m with (n + S (m - n - 1))%nat by lia.
  rewrite (fetch_running_more _ _ _ _ _ _ _ _ Hu Hk Hrun). simpl.
  rewrite (fetch_page_not_ok _ _ _ _ _ _ _ Hget Hok).
  unfold no_api_key_re. rewrite match_literal, Hmark.
  by destruct (status_code r =? 404).
Qed.

(** X7.  A walk has sent [n] requests and is still running; the next
    request raises an exception of the requests library that is not a
    [ConnectionError] (a read timeout, too many redirects, an invalid
    url).  Then the walk lets it through as it is, not as an
    [IngestApiError], and sends nothing more. *)
Theorem fetch_other_exception n cfg prov st url key l st1 err w :
  cfg !! "url" = Some url →
  cfg !! "api_key" = Some key →
  _fetch_data n cfg prov st = Running l st1 →
  let req := page_request url {[ "apikey" := key ]} l in
  requests_get req (world st1) = (Fails err, w) →
  is_ConnectionError (exc_class err) = false →
  ∀ m, (n < m)%nat →
    _fetch_data m cfg prov st =
      Done (Raise (RequestException err))
        (Net w (log st1 ++ [(req, Fails err)])).
Proof.
  intros Hu Hk Hrun req Hget Hcls m Hm.
  replace m with (n + S (m - n - 1))%nat by lia.
  rewrite (fetch_running_more _ _ _ _ _ _ _ _ Hu Hk Hrun). simpl.
  by rewrite (fetch_page_other_error _ _ _ _ _ _ _ Hget Hcls).
Qed.

(** X8.  When the request of [_test] raises an exception of the requests
    library that is not a [ConnectionError], [_test] lets it through as it
    is, after this one request. *)
Theorem test_other_exception prov st url key err w :
  default ∅ (config prov) !! "url" = Some url →
  default ∅ (config prov) !! "api_key" = Some key →
  requests_get (probe_request url key) (world st) = (Fails err, w) →
  is_ConnectionError (exc_class err) = false →
  _test prov st =
    (Raise (RequestException err),
     Net w (log st ++ [(probe_request url key, Fails err)])).
Proof.
  intros Hu Hk Hget Hcls. unfold _test, bind, getitem, try_except, get.
  rewrite Hu, Hk. simpl. fold (probe_request url key). rewrite Hget.
  simpl. by rewrite Hcls.
Qed.

(** X9.  A provider whose configuration lacks the url, or has no
    configuration at all, makes [_update] raise [KeyError] for ['url']; one
    that has the url but lacks the key makes it raise [KeyError] for
    ['api_key'].  In both cases no request is sent and the parser is not
    run. *)
Theorem update_missing_key fuel prov update st :
  (default ∅ (config prov) !! "url" = None →
   _update fuel prov update st = Done (Raise (KeyError "url")) st) ∧
  (is_Some (default ∅ (config prov) !! "url") →
   default ∅ (config prov) !! "api_key" = None →
   _update fuel prov update st = Done (Raise (KeyError "api_key")) st).
Proof.
  split.
  - intros Hu. unfold _update, _fetch_data, bind, getitem. by rewrite Hu.
  - intros [url Hu] Hk. unfold _update, _fetch_data, bind, getitem.
    by rewrite Hu, Hk.
Qed.

(** X10.  The same for [_test]: without the url it raises [KeyError] for
    ['url'], with the url and without the key [KeyError] for ['api_key'],
    and it sends no request. *)
Theorem test_missing_key prov st :
  (default ∅ (config prov) !! "url" = None →
   _test prov st = (Raise (KeyError "url"), st)) ∧
  (is_Some (default ∅ (config prov) !! "url") →
   default ∅ (config prov) !! "api_key" = None →
   _test prov st = (Raise (KeyError "api_key"), st)).
Proof.
  split.
  - intros Hu. unfold _test, bind, getitem. by rewrite Hu.
  - intros [url Hu] Hk. unfold _test, bind, getitem. by rewrite Hu, Hk.
Qed.

Lemma parse_items_returns prov f pages :
  (∀ item w, item ∈ pages → ∃ p w1 w2,
     get_feed_parser prov item w = (inr p, w1) ∧
     parse p item w1 = (inr (f item), w2)) →
  ∀ acc st, ∃ w',
    parse_items prov pages acc st
    = (Return (acc ++ (f <$> pages)), Net w' (log st)).
Proof.
  induction pages as [|item pages IH]; intros Hparse acc st.
  - exists (world st). simpl. rewrite app_nil_r. by destruct st.
  - destruct (Hparse item (world st)) as (p & w1 & w2 & Hp & Hparsed);
      [by left|].
    destruct (IH (λ it w0 Hit, Hparse it w0 (list_elem_of_further _ _ _ Hit))
                (acc ++ [f item]) (Net w2 (log st))) as (w' & Hrest).
    exists w'. simpl. unfold bind, try_except. rewrite Hp. simpl.
    rewrite Hparsed. simpl. rewrite Hrest. simpl.
    by rewrite <- app_assoc.
Qed.

(** X11.  When the walk returns pages and the parser turns each page
    [item] into [f item], [_update] returns the parsed items in the order
    of the pages, one for each page, and sends no request of its own. *)
Theorem update_returns_parsed fuel prov update st st1 pages f :
  _fetch_data fuel (default ∅ (config prov)) prov st =
    Done (Return pages) st1 →
  (∀ item w, item ∈ pages → ∃ p w1 w2,
     get_feed_parser prov item w = (inr p, w1) ∧
     parse p item w1 = (inr (f item), w2)) →
  ∃ w',
    _update fuel prov update st =
      Done (Return (f <$> pages)) (Net w' (log st1)).
Proof.
  intros Hfetch Hparse. unfold _update. rewrite Hfetch.
  destruct (parse_items_returns prov f pages Hparse [] st1) as (w' & ->).
  by exists w'.
Qed.

(** X12.  When the first page succeeds and reports the total 0, [_update]
    returns the empty list after this one request, without running the
    parser: the world is left as the request left it. *)
Theorem update_empty_feed fuel prov update st url key r w :
  default ∅ (config prov) !! "url" = Some url →
  default ∅ (config prov) !! "api_key" = Some key →
  let req := page_request url {[ "apikey" := key ]} (first_locals prov) in
  requests_get req (world st) = (Answers r, w) →
  ok r = true →
  reported_total (text r) = Some 0 →
  (1 ≤ fuel)%nat →
  _update fuel prov update st =
    Done (Return []) (Net w (log st ++ [(req, Answers r)])).
Proof.
  intros Hu Hk req Hget Hok Htot Hf. destruct fuel as [|fuel]; [lia|].
  unfold _update. rewrite (_fetch_data_loop _ _ _ _ _ _ Hu Hk). simpl.
  by rewrite (fetch_page_total _ _ _ _ _ _ _ _ Hget Hok Htot).
Qed.

Lemma parse_items_raises prov pages :
  ∀ acc st ex st',
    parse_items prov pages acc st = (Raise ex, st') →
    ∃ cause item, item ∈ pages ∧
      ex = ParserError_parseMessageError cause prov item.
Proof.
  induction pages as [|item pages IH]; intros acc st ex st' H.
  - done.
  - simpl in H. unfold bind, try_except, raise in H.
    destruct (get_feed_parser prov item (world st)) as [[cause|p] w1].
    + simpl in H. injection H as <- _. exists cause, item.
      split; [by left|done].
    + simpl in H.
      destruct (parse p item w1) as [[cause|a] w2]; simpl in H.
      * injection H as <- _. exists cause, item. split; [by left|done].
      * destruct (IH _ _ _ _ H) as (cause & it & Hit & ->).
        exists cause, it. split; [by right|done].
Qed.

(** X13.  A configuration that has every field the service declares as
    required is enough: [_test], [_fetch_data] and [_update] then never
    raise [KeyError]. *)
Theorem declared_fields_suffice cfg prov :
  config prov = Some cfg →
  (∀ f, f ∈ fields → field_required f = true →
        is_Some (cfg !! field_id f)) →
  (∀ st k, (_test prov st).1 ≠ Raise (KeyError k)) ∧
  (∀ fuel st k st',
     _fetch_data fuel cfg prov st ≠ Done (Raise (KeyError k)) st') ∧
  (∀ fuel update st k st',
     _update fuel prov update st ≠ Done (Raise (KeyError k)) st').
Proof.
  intros Hcfg Hfields.
  destruct (Hfields (Field "url" "text" "LDRS URL" "LDRS URL" true
                       "https://api.ldrs.org.uk/v1/item"))
    as [url Hu]; [by left|done|].
  destruct (Hfields (Field "api_key" "text" "API Key" "API Key" true ""))
    as [key Hk]; [by right; left|done|].
  simpl in Hu, Hk.
  assert (∀ fuel st k st',
            _fetch_data fuel cfg prov st ≠ Done (Raise (KeyError k)) st')
    as Hfetch.
  { intros fuel st k st' H.
    rewrite (_fetch_data_loop _ _ _ _ _ _ Hu Hk) in H.
    destruct (walk_invariant url {[ "apikey" := key ]} prov fuel
                (first_locals prov) st) as (new & _ & _ & _ & Hmatch).
    rewrite H in Hmatch.
    destruct Hmatch as (_ & _ & _ & _ & _ & [[? ?]|[(? & ? & ? & ?)|[? ?]]]);
      discriminate. }
  split; [|split; [exact Hfetch|]].
  - intros st k. unfold _test, bind, getitem, try_except, get, raise, ret.
    rewrite Hcfg. simpl. rewrite Hu, Hk.
    destruct (requests_get _ _) as [[r|err] w]; simpl.
    + destruct (ok r); simpl; [done|]. by destruct (_ =? 404).
    + by destruct (is_ConnectionError _).
  - intros fuel update st k st' H. unfold _update in H.
    rewrite Hcfg in H. simpl in H.
    destruct (_fetch_data fuel cfg prov st) as [[pages|ex] st1|l st1] eqn:Hf;
      [| |done].
    + destruct (parse_items prov pages [] st1) as [[parsed|ex] st2] eqn:Hp;
        [done|].
      injection H as -> _.
      by destruct (parse_items_raises _ _ _ _ _ _ Hp) as (? & ? & _ & ?).
    + injection H as -> ->. exact (Hfetch fuel st k st' Hf).
Qed.

Lemma parse_items_raises_at prov pages :
  ∀ acc st ex st',
    parse_items prov pages acc st = (Raise ex, st') →
    ∃ before item after parsed st2 cause w',
      pages = before ++ item :: after ∧
      parse_items prov before acc st = (Return parsed, st2) ∧
      parser_raises prov item (world st2) cause w' ∧
      ex = ParserError_parseMessageError cause prov item ∧
      st' = Net w' (log st2).
Proof.
  induction pages as [|item pages IH]; intros acc st ex st' H.
  - done.
  - simpl in H. unfold bind, try_except, raise in H.
    destruct (get_feed_parser prov item (world st)) as [[cause|p] w1] eqn:Hp.
    + simpl in H. injection H as <- <-.
      exists [], item, pages, acc, st, cause, w1.
      split; [done|]. split; [done|]. split; [by left|done].
    + simpl in H.
      destruct (parse p item w1) as [[cause|a] w2] eqn:Hparse; simpl in H.
      * injection H as <- <-.
        exists [], item, pages, acc, st, cause, w2.
        split; [done|]. split; [done|]. split; [|done].
        right. by exists p, w1.
      * destruct (IH _ _ _ _ H)
          as (before & it & after & parsed & st2 & cause & w' &
              -> & Hbefore & Hraise & -> & ->).
        exists (item :: before), it, after, parsed, st2, cause, w'.
        split; [done|]. split; [|done].
        simpl. unfold bind, try_except. rewrite Hp. simpl.
        rewrite Hparse. simpl. exact Hbefore.
Qed.

(** X15.  [_update] fails in two ways only: with the exception of the
    walk, passed on as it is with the state the walk left; or, the walk
    having returned, with the [parseMessageError] built from what the
    parser (its selection or its [parse]) raised on one of the pages, from
    the provider and from that page, the pages before it having been
    parsed. *)
Theorem update_failures fuel prov update st ex st' :
  _update fuel prov update st = Done (Raise ex) st' →
  _fetch_data fuel (default ∅ (config prov)) prov st = Done (Raise ex) st' ∨
  ∃ before item after st1 parsed st2 cause w',
    _fetch_data fuel (default ∅ (config prov)) prov st =
      Done (Return (before ++ item :: after)) st1 ∧
    parse_items prov before [] st1 = (Return parsed, st2) ∧
    parser_raises prov item (world st2) cause w' ∧
    ex = ParserError_parseMessageError cause prov item ∧
    st' = Net w' (log st2).
Proof.
  unfold _update. intros H.
  destruct (_fetch_data fuel (default ∅ (config prov)) prov st)
    as [[pages|ex1] st1|l st1]; [| |done].
  - right. destruct (parse_items prov pages [] st1) as [[parsed|ex2] st2]
      eqn:Hp; [done|].
    injection H as -> ->.
    destruct (parse_items_raises_at _ _ _ _ _ _ Hp)
      as (before & item & after & parsed & st3 & cause & w' &
          -> & Hbefore & Hraise & -> & ->).
    by exists before, item, after, st1, parsed, st3, cause, w'.
  - left. by injection H as -> ->.
Qed.

End BBCLDRSFeedingService.

Arguments Provider {datetime} config last_updated.
Arguments Exception {datetime} msg.
Arguments AttributeError {datetime} msg.
Arguments ValueError {datetime} msg.
Arguments RequestException {datetime} err.
Arguments IngestApiError {datetime} kind exception prov.
Arguments ParserError_parseMessageError {datetime} exception prov data.
Arguments Return {datetime A} a.
Arguments Raise {datetime A} e.
Arguments Net {World} world log.
Arguments log {World} n.
Arguments world {World} n.
Arguments Done {World datetime L A} r st.
Arguments Running {World datetime L A} l st.
Arguments sample_provider {datetime}.
Arguments sample_get_feed_parser {World datetime} prov item w.
Arguments sample_parse {World datetime} parser item w.
Arguments reports_total {World} requests_get T.

(** ** The statements on sample endpoints *)

Local Notation "'ok_15'" := (Answers (Response 200 "OK" body_total_15)).
Local Notation "'sample_fetch'" := (_fetch_data nat Z id sample_strftime).
Local Notation "'sample_update'" :=
  (_update nat Z unit string id sample_strftime).
Local Notation "'sample_test'" := (_test nat Z).
Local Notation "'start'" := (Net 0%nat []).
Local Notation "'sample_url'" := "https://api.ldrs.org.uk/v1/item".

Lemma sample_reports_15 : reports_total (scripted [] ok_15) 15.
Proof.
  intros req w. exists (Response 200 "OK" body_total_15), (S w).
  split; [by destruct w|]. split; [done|]. by vm_compute.
Qed.

Lemma fetch_walk_terminates_witness :
  ∃ (n : nat) new w',
    (∀ fuel, (n ≤ fuel)%nat →
       sample_fetch (scripted [] ok_15) fuel sample_config sample_provider
         start =
         Done (Return (if 15 >? 0 then bodies new else []))
           (Net w' ([] ++ new))) ∧
    offsets new = (λ i : nat, Some (offset_jump * Z.of_nat i)) <$> seq 0 n ∧
    (∀ i : nat, (S i < n)%nat → offset_jump * Z.of_nat i < 15) ∧
    15 ≤ offset_jump * Z.of_nat (n - 1) ∧
    (15 = 0 → n = 1%nat).
Proof.
  apply (fetch_walk_terminates nat Z id sample_strftime (scripted [] ok_15)
           15 sample_config sample_provider start sample_url "secret").
  - lia.
  - exact sample_reports_15.
  - reflexivity.
  - reflexivity.
Defined.

Lemma fetch_request_count_witness :
  ∃ (n : nat) pages new w',
    (∀ fuel, (n ≤ fuel)%nat →
       sample_fetch (scripted [] ok_15) fuel sample_config sample_provider
         start = Done (Return pages) (Net w' ([] ++ new))) ∧
    length new = n ∧
    ∃ k : nat, n = S k ∧ 15 ≤ Z.of_nat k * offset_jump ∧
      ∀ j : nat, 15 ≤ Z.of_nat j * offset_jump → (k ≤ j)%nat.
Proof.
  apply (fetch_request_count nat Z id sample_strftime (scripted [] ok_15)
           15 sample_config sample_provider start sample_url "secret").
  - lia.
  - exact sample_reports_15.
  - reflexivity.
  - reflexivity.
Defined.

Lemma fetch_total_15_witness :
  ∃ new w',
    (∀ fuel, (3 ≤ fuel)%nat →
       sample_fetch (scripted [] ok_15) fuel sample_config sample_provider
         start = Done (Return (bodies new)) (Net w' ([] ++ new))) ∧
    offsets new = [Some 0; Some 10; Some 20] ∧
    length (bodies new) = 3%nat.
Proof.
  apply (fetch_total_15 nat Z id sample_strftime (scripted [] ok_15)
           sample_config sample_provider start sample_url "secret").
  - exact sample_reports_15.
  - reflexivity.
  - reflexivity.
Defined.

(** C1, as stated, fails: on an endpoint that answers every request with a
    success reporting the total 15, the walk does not stop after the page at
    offset 10.  It sends a third request, at offset 20, and returns three
    bodies; no amount of fuel makes it return two. *)
Lemma fetch_total_15_counterexample :
  reports_total (scripted [] ok_15) 15 ∧
  (∃ st',
     sample_fetch (scripted [] ok_15) 3 sample_config sample_provider start =
       Done (Return [body_total_15; body_total_15; body_total_15]) st' ∧
     offsets (log st') = [Some 0; Some 10; Some 20]) ∧
  (∀ fuel pages st',
     sample_fetch (scripted [] ok_15) fuel sample_config sample_provider
       start = Done (Return pages) st' →
     length pages ≠ 2%nat).
Proof.
  assert (∃ st',
     sample_fetch (scripted [] ok_15) 3 sample_config sample_provider start =
       Done (Return [body_total_15; body_total_15; body_total_15]) st' ∧
     offsets (log st') = [Some 0; Some 10; Some 20]) as Hthree.
  { eexists. split; by vm_compute. }
  split; [exact sample_reports_15|]. split; [exact Hthree|].
  intros fuel pages st' H. destruct Hthree as (st3 & H3 & _).
  destruct (decide (fuel < 3)%nat) as [Hlt|Hge].
  - destruct fuel as [|[|[|fuel]]]; [by vm_compute in H..|lia].
  - rewrite (_fetch_data_Done_more _ _ _ _ _ 3%nat _ _ _ _ _ H3 fuel) in H
      by lia.
    by inversion H.
Qed.

(** C2, as stated, fails: on the same endpoint the smallest [k] with
    [k * 10 ≥ 15] is 2, and the walk sends three requests whatever the
    fuel. *)
Lemma fetch_request_count_counterexample :
  reports_total (scripted [] ok_15) 15 ∧
  (15 ≤ 2 * offset_jump ∧ ∀ j : nat, 15 ≤ Z.of_nat j * offset_jump → (2 ≤ j)%nat) ∧
  (∀ fuel pages st',
     sample_fetch (scripted [] ok_15) fuel sample_config sample_provider
       start = Done (Return pages) st' →
     length (log st') = 3%nat).
Proof.
  split; [exact sample_reports_15|]. split.
  { unfold offset_jump. split; intros; lia. }
  intros fuel pages st' H.
  destruct (decide (fuel < 3)%nat) as [Hlt|Hge].
  - destruct fuel as [|[|[|fuel]]]; [by vm_compute in H..|lia].
  - assert (∃ r st3,
       sample_fetch (scripted [] ok_15) 3 sample_config sample_provider
         start = Done r st3 ∧ length (log st3) = 3%nat)
      as (r & st3 & H3 & Hlen).
    { eexists _, _. split; by vm_compute. }
    rewrite (_fetch_data_Done_more _ _ _ _ _ 3%nat _ _ _ _ _ H3 fuel) in H
      by lia.
    by inversion H; subst.
Qed.

Lemma fetch_total_zero_witness :
  sample_fetch (scripted [] (Answers (Response 200 "OK" body_total_0)))
    1 sample_config sample_provider start =
  Done (Return [])
    (Net 1%nat
       ([] ++ [(page_request sample_url {[ "apikey" := "secret" ]}
                  (first_locals Z id sample_strftime sample_provider),
                Answers (Response 200 "OK" body_total_0))])).
Proof.
  apply (fetch_total_zero nat Z id sample_strftime
           (scripted [] (Answers (Response 200 "OK" body_total_0)))
           sample_config sample_provider start sample_url "secret").
  - reflexivity.
  - reflexivity.
  - reflexivity.
  - reflexivity.
  - by vm_compute.
  - lia.
Defined.

(** The first page succeeds, the request for the second one times out
    while connecting. *)
Lemma fetch_connection_failure_witness :
  ∃ st',
    sample_fetch (scripted [ok_15] (Fails timed_out)) 2 sample_config
      sample_provider start =
    Done (Raise (IngestApiError apiConnectionError
                   (RequestException timed_out) None)) st' ∧
    offsets (log st') = [Some 0; Some 10].
Proof.
  eexists. split.
  - eapply (fetch_connection_failure nat Z id sample_strftime
              (scripted [ok_15] (Fails timed_out))
              1 sample_config sample_provider start sample_url "secret").
    + reflexivity.
    + reflexivity.
    + by vm_compute.
    + reflexivity.
    + reflexivity.
    + lia.
  - by vm_compute.
Defined.

(** The body is the marker and the status is 404. *)
Lemma fetch_no_api_key_witness :
  ∃ st',
    sample_fetch (scripted [] (Answers (Response 404 "Not Found" no_api_key)))
      1 sample_config sample_provider start =
    Done (Raise (IngestApiError apiAuthError (Exception no_api_key)
                   (Some sample_provider))) st'.
Proof.
  eexists.
  eapply (fetch_no_api_key nat Z id sample_strftime
            (scripted [] (Answers (Response 404 "Not Found" no_api_key)))
            0 sample_config sample_provider start sample_url "secret"
            (first_locals Z id sample_strftime sample_provider) start
            (Response 404 "Not Found" no_api_key) 1%nat).
  - reflexivity.
  - reflexivity.
  - reflexivity.
  - reflexivity.
  - reflexivity.
  - by vm_compute.
  - lia.
Defined.

(** C3, as stated, fails: a response with status 404 whose body contains
    the marker, though not at its start, is classified by its status. *)
Lemma fetch_no_api_key_counterexample :
  let r := Response 404 "Not Found" body_no_api_key_inside in
  ok r = false ∧
  contains no_api_key (text r) = true ∧
  ∃ st',
    sample_fetch (scripted [] (Answers r)) 1 sample_config sample_provider
      start =
    Done (Raise (IngestApiError apiNotFoundError (Exception "Not Found")
                   (Some sample_provider))) st'.
Proof.
  split; [done|]. split; [by vm_compute|]. eexists. by vm_compute.
Qed.

(** C4 does not hold of the code.  On a success whose body has no total,
    or a total that is not a number, [re.search] finds nothing and its
    [group()] is taken all the same: [_fetch_data] raises [AttributeError],
    not the [apiGeneralError] that the test of [results_str] was written to
    raise. *)
Theorem fetch_missing_total :
  (∃ st',
     sample_fetch (scripted [] (Answers (Response 200 "OK" body_no_total))) 1
       sample_config sample_provider start =
     Done (Raise (AttributeError "'NoneType' object has no attribute 'group'"))
       st') ∧
  (∃ st',
     sample_fetch (scripted [] (Answers (Response 200 "OK" body_total_null))) 1
       sample_config sample_provider start =
     Done (Raise (AttributeError "'NoneType' object has no attribute 'group'"))
       st').
Proof. split; eexists; by vm_compute. Qed.

(** Three pages, of which the second is cut short. *)
Lemma update_parse_failure_witness :
  ∃ st',
    sample_update
      (scripted [ok_15; Answers (Response 200 "OK" body_total_15_broken)]
         ok_15)
      sample_get_feed_parser sample_parse 3 sample_provider ∅ start =
    Done (Raise (ParserError_parseMessageError (ValueError "Expecting value")
                   sample_provider body_total_15_broken)) st'.
Proof.
  eexists.
  eapply (update_parse_failure nat Z unit string id sample_strftime
            (scripted [ok_15; Answers (Response 200 "OK" body_total_15_broken)]
               ok_15)
            sample_get_feed_parser sample_parse 3 sample_provider ∅ start
            _ _ [body_total_15] body_total_15_broken [body_total_15]
            [body_total_15]).
  - by vm_compute.
  - by vm_compute.
  - right. exists tt, 3%nat. split; by vm_compute.
Defined.

(** One endpoint for each of the four outcomes. *)
Lemma test_classification_witness :
  (sample_test (scripted [] (Fails timed_out)) sample_provider start).1 =
    Raise (IngestApiError apiConnectionError (RequestException timed_out)
             None) ∧
  (sample_test (scripted [] (Answers (Response 404 "Not Found" "")))
     sample_provider start).1 =
    Raise (IngestApiError apiNotFoundError (Exception "Not Found")
             (Some sample_provider)) ∧
  (sample_test (scripted [] (Answers (Response 500 "Server Error" "")))
     sample_provider start).1 =
    Raise (IngestApiError apiGeneralError (Exception "Server Error")
             (Some sample_provider)) ∧
  (sample_test (scripted [] ok_15) sample_provider start).1 = Return ().
Proof.
  split; [|split; [|split]].
  - by rewrite (proj1 (test_classification nat Z
                  (scripted [] (Fails timed_out)) sample_provider start
                  sample_url "secret" _ _ eq_refl eq_refl eq_refl)
                  timed_out eq_refl eq_refl).
  - by rewrite (proj1 (proj2 (test_classification nat Z
                  (scripted [] (Answers (Response 404 "Not Found" "")))
                  sample_provider start
                  sample_url "secret" _ _ eq_refl eq_refl eq_refl))
                  (Response 404 "Not Found" "") eq_refl eq_refl eq_refl).
  - by rewrite (proj1 (proj2 (proj2 (test_classification nat Z
                  (scripted [] (Answers (Response 500 "Server Error" "")))
                  sample_provider start
                  sample_url "secret" _ _ eq_refl eq_refl eq_refl)))
                  (Response 500 "Server Error" "") eq_refl eq_refl
                  ltac:(discriminate)).
  - by rewrite (proj2 (proj2 (proj2 (test_classification nat Z
                  (scripted [] ok_15) sample_provider start
                  sample_url "secret" _ _ eq_refl eq_refl eq_refl)))
                  (Response 200 "OK" body_total_15) eq_refl eq_refl).
Defined.

(** The body is exactly the marker, the status is 401. *)
Lemma test_never_AuthError_witness :
  (sample_test (scripted [] (Answers (Response 401 "Unauthorized" no_api_key)))
     sample_provider start).1 =
    Raise (IngestApiError apiGeneralError (Exception "Unauthorized")
             (Some sample_provider)).
Proof.
  apply (proj2 (test_never_AuthError nat Z
                  (scripted [] (Answers (Response 401 "Unauthorized"
                                           no_api_key)))
                  sample_provider start)
           sample_url "secret" (Response 401 "Unauthorized" no_api_key)
           1%nat).
  - reflexivity.
  - reflexivity.
  - reflexivity.
  - reflexivity.
Defined.

(** ** The further statements on sample endpoints *)

Arguments KeyError {datetime} key.
Arguments sample_mark_parse {World datetime} parser item w.
Arguments run_state {World datetime L A} r.

Local Notation "'ok_0'" := (Answers (Response 200 "OK" body_total_0)).

Lemma fetch_requests_shape_witness :
  ∃ new,
    log (run_state (sample_fetch (scripted [ok_15] (Fails read_timeout)) 5
                      sample_config sample_provider start))
      = [] ++ new ∧
    (length new ≤ 5)%nat ∧
    ∀ (i : nat) e, new !! i = Some e →
      e.1 = Request sample_url
              (<[ "offset" := PInt (offset_jump * Z.of_nat i) ]>
                 {[ "start" :=
                      PStr (sample_strftime (default (id 0) None)
                              "%Y-%m-%dT%H:%M:%S");
                    "limit" := PInt 10 ]})
              {[ "apikey" := "secret" ]} 30.
Proof.
  apply (fetch_requests_shape nat Z id sample_strftime
           (scripted [ok_15] (Fails read_timeout))
           5 sample_config sample_provider start sample_url "secret").
  - reflexivity.
  - reflexivity.
Defined.

(** The second page reports that nothing is left: the walk returns the
    first body only. *)
Lemma fetch_returns_kept_bodies_witness :
  ∃ init last,
    log (run_state (sample_fetch (scripted [ok_15] ok_0) 2 sample_config
                      sample_provider start))
      = [] ++ init ++ [last] ∧
    Forall (λ e, entry_continues e = true) init ∧
    entry_continues last = false ∧
    is_Some (entry_total last) ∧
    [body_total_15] = kept_bodies (init ++ [last]).
Proof.
  apply (fetch_returns_kept_bodies nat Z id sample_strftime
           (scripted [ok_15] ok_0)
           2 sample_config sample_provider start sample_url "secret").
  - reflexivity.
  - reflexivity.
  - by vm_compute.
Defined.

Lemma fetch_bounded_total_witness :
  ∃ r st',
    sample_fetch (scripted [ok_15] ok_0) 3 sample_config sample_provider
      start = Done r st' ∧
    (length (log st') ≤ length (@nil (request * get_result))
                         + Z.to_nat ((15 + 9) / 10) + 1)%nat.
Proof.
  apply (fetch_bounded_total nat Z id sample_strftime
           (scripted [ok_15] ok_0)
           15 3 sample_config sample_provider start sample_url "secret").
  - intros req [|[|w]] r w' T Hget Hok Htot; unfold scripted in Hget;
      simplify_eq/=; vm_compute in Htot; simplify_eq; lia.
  - reflexivity.
  - reflexivity.
  - vm_compute. lia.
Defined.

Lemma ahead_is_ahead :
  ∀ req w, ∃ r w' T,
    ahead req w = (Answers r, w') ∧ ok r = true ∧
    reported_total (text r) = Some T ∧
    ∀ o, offset_of req = Some o → o < T.
Proof.
  intros req w. eexists _, _, _. split; [reflexivity|]. split; [done|].
  split.
  - unfold body_total. simpl text.
    destruct (pretty_N_digits (Z.to_N (default 0 (offset_of req)) + 1))
      as (Hall & Hne & Hint).
    destruct (pretty _) as [|c d]; [done|]. rewrite <- Hint.
    by apply (reported_total_digits "{" 1 c d
                (", " +:+ quoted "item" +:+ ": []}")).
  - intros o ->. simpl. lia.
Qed.

Lemma fetch_unbounded_witness :
  ∃ l st',
    sample_fetch ahead 7 sample_config sample_provider start
      = Running l st' ∧
    offset l = offset_jump * Z.of_nat 7 ∧
    (length (log st') = length (@nil (request * get_result)) + 7)%nat.
Proof.
  apply (fetch_unbounded nat Z id sample_strftime ahead
           7 sample_config sample_provider start sample_url "secret").
  - exact ahead_is_ahead.
  - reflexivity.
  - reflexivity.
Defined.

Lemma fetch_success_outcomes_witness :
  sample_fetch (scripted [] ok_15) 1 sample_config sample_provider start =
    Running
      (Locals
         (req_params (page_request sample_url {[ "apikey" := "secret" ]}
                        (first_locals Z id sample_strftime sample_provider)))
         [body_total_15] 10)
      (Net 1%nat
         ([] ++ [(page_request sample_url {[ "apikey" := "secret" ]}
                    (first_locals Z id sample_strftime sample_provider),
                  ok_15)])).
Proof.
  apply (fetch_success_outcomes nat Z id sample_strftime
           (scripted [] ok_15)
           0 sample_config sample_provider start sample_url "secret"
           (first_locals Z id sample_strftime sample_provider) start
           (Response 200 "OK" body_total_15) 1%nat).
  - reflexivity.
  - reflexivity.
  - reflexivity.
  - reflexivity.
  - reflexivity.
  - intros d Hd. vm_compute in Hd. injection Hd as <-. simpl. lia.
Defined.

Lemma fetch_not_ok_by_status_witness :
  ∃ st',
    sample_fetch
      (scripted [] (Answers (Response 500 "Server Error"
                               body_no_api_key_inside)))
      1 sample_config sample_provider start =
    Done (Raise (IngestApiError apiGeneralError (Exception "Server Error")
                   (Some sample_provider))) st'.
Proof.
  eexists.
  apply (fetch_not_ok_by_status nat Z id sample_strftime
           (scripted [] (Answers (Response 500 "Server Error"
                                    body_no_api_key_inside)))
           0 sample_config sample_provider start sample_url "secret"
           (first_locals Z id sample_strftime sample_provider) start
           (Response 500 "Server Error" body_no_api_key_inside) 1%nat).
  - reflexivity.
  - reflexivity.
  - reflexivity.
  - reflexivity.
  - reflexivity.
  - by vm_compute.
  - lia.
Defined.

(** The first page succeeds, reading the second one times out. *)
Lemma fetch_other_exception_witness :
  ∃ st',
    sample_fetch (scripted [ok_15] (Fails read_timeout)) 2 sample_config
      sample_provider start =
    Done (Raise (RequestException read_timeout)) st' ∧
    offsets (log st') = [Some 0; Some 10].
Proof.
  eexists. split.
  - eapply (fetch_other_exception nat Z id sample_strftime
              (scripted [ok_15] (Fails read_timeout))
              1 sample_config sample_provider start sample_url "secret").
    + reflexivity.
    + reflexivity.
    + by vm_compute.
    + reflexivity.
    + reflexivity.
    + lia.
  - by vm_compute.
Defined.

Lemma test_other_exception_witness :
  sample_test (scripted [] (Fails read_timeout)) sample_provider start =
    (Raise (RequestException read_timeout),
     Net 1%nat ([] ++ [(probe_request sample_url "secret",
                        Fails read_timeout)])).
Proof.
  apply (test_other_exception nat Z (scripted [] (Fails read_timeout))
           sample_provider start sample_url "secret" read_timeout 1%nat).
  - reflexivity.
  - reflexivity.
  - reflexivity.
  - reflexivity.
Defined.

(** A provider without configuration, and one with the url only. *)
Lemma update_missing_key_witness :
  sample_update (scripted [] ok_15) sample_get_feed_parser sample_parse 3
    (Provider None None) ∅ start = Done (Raise (KeyError "url")) start ∧
  sample_update (scripted [] ok_15) sample_get_feed_parser sample_parse 3
    (Provider (Some {[ "url" := sample_url ]}) None) ∅ start
    = Done (Raise (KeyError "api_key")) start.
Proof.
  split.
  - apply (proj1 (update_missing_key nat Z unit string id sample_strftime
                    (scripted [] ok_15) sample_get_feed_parser sample_parse
                    3 (Provider None None) ∅ start)).
    reflexivity.
  - apply (proj2 (update_missing_key nat Z unit string id sample_strftime
                    (scripted [] ok_15) sample_get_feed_parser sample_parse
                    3 (Provider (Some {[ "url" := sample_url ]}) None)
                    ∅ start)).
    + by eexists.
    + reflexivity.
Defined.

Lemma test_missing_key_witness :
  sample_test (scripted [] ok_15) (Provider None None) start
    = (Raise (KeyError "url"), start) ∧
  sample_test (scripted [] ok_15)
    (Provider (Some {[ "url" := sample_url ]}) None) start
    = (Raise (KeyError "api_key"), start).
Proof.
  split.
  - apply (proj1 (test_missing_key nat Z (scripted [] ok_15)
                    (Provider None None) start)).
    reflexivity.
  - apply (proj2 (test_missing_key nat Z (scripted [] ok_15)
                    (Provider (Some {[ "url" := sample_url ]}) None) start)).
    + by eexists.
    + reflexivity.
Defined.

Lemma update_returns_parsed_witness :
  ∃ w',
    sample_update
      (scripted [ok_15; Answers (Response 200 "OK" body_total_15_second)]
         ok_0)
      sample_get_feed_parser sample_mark_parse 3 sample_provider ∅ start =
    Done (Return (String.append "article "
                    <$> [body_total_15; body_total_15_second]))
      (Net w'
         (log (run_state
                 (sample_fetch
                    (scripted
                       [ok_15;
                        Answers (Response 200 "OK" body_total_15_second)]
                       ok_0)
                    3 sample_config sample_provider start)))).
Proof.
  apply (update_returns_parsed nat Z unit string id sample_strftime
           (scripted [ok_15; Answers (Response 200 "OK" body_total_15_second)]
              ok_0)
           sample_get_feed_parser sample_mark_parse
           3 sample_provider ∅ start
           (run_state
              (sample_fetch
                 (scripted
                    [ok_15; Answers (Response 200 "OK" body_total_15_second)]
                    ok_0)
                 3 sample_config sample_provider start))
           [body_total_15; body_total_15_second] (String.append "article ")).
  - by vm_compute.
  - intros item w Hin. by exists tt, w, w.
Defined.

Lemma update_empty_feed_witness :
  sample_update (scripted [] ok_0) sample_get_feed_parser sample_parse 1
    sample_provider ∅ start =
  Done (Return [])
    (Net 1%nat
       ([] ++ [(page_request sample_url {[ "apikey" := "secret" ]}
                  (first_locals Z id sample_strftime sample_provider),
                ok_0)])).
Proof.
  apply (update_empty_feed nat Z unit string id sample_strftime
           (scripted [] ok_0) sample_get_feed_parser sample_parse
           1 sample_provider ∅ start sample_url "secret").
  - reflexivity.
  - reflexivity.
  - reflexivity.
  - reflexivity.
  - by vm_compute.
  - lia.
Defined.

Lemma sample_config_has_fields :
  ∀ f, f ∈ fields → field_required f = true →
       is_Some (sample_config !! field_id f).
Proof.
  intros f Hf _. apply list_elem_of_In in Hf.
  destruct Hf as [<-|[<-|[]]]; by eexists.
Qed.

Lemma declared_fields_suffice_witness :
  (sample_test (scripted [] (Fails timed_out)) sample_provider start).1
    ≠ Raise (KeyError "url") ∧
  sample_fetch (scripted [] ok_15) 3 sample_config sample_provider start
    ≠ Done (Raise (KeyError "api_key")) start.
Proof.
  split.
  - apply (proj1 (declared_fields_suffice nat Z unit string id
                    sample_strftime (scripted [] (Fails timed_out))
                    sample_get_feed_parser sample_parse
                    sample_config sample_provider
                    eq_refl sample_config_has_fields)).
  - apply (proj1 (proj2 (declared_fields_suffice nat Z unit string id
                    sample_strftime (scripted [] ok_15)
                    sample_get_feed_parser sample_parse
                    sample_config sample_provider
                    eq_refl sample_config_has_fields))).
Defined.


(** Three pages, of which the second is cut short. *)
Lemma update_failures_witness :
  let endpoint :=
    scripted [ok_15; Answers (Response 200 "OK" body_total_15_broken)]
      ok_15 in
  let ex :=
    ParserError_parseMessageError (ValueError "Expecting value")
      sample_provider body_total_15_broken in
  let st' :=
    run_state (sample_update endpoint sample_get_feed_parser sample_parse 3
                 sample_provider ∅ start) in
  sample_fetch endpoint 3 (default ∅ (Some sample_config)) sample_provider
    start = Done (Raise ex) st' ∨
  ∃ before item after st1 parsed st2 cause w',
    sample_fetch endpoint 3 (default ∅ (Some sample_config))
      sample_provider start = Done (Return (before ++ item :: after)) st1 ∧
    parse_items nat Z unit string sample_get_feed_parser sample_parse
      sample_provider before [] st1 = (Return parsed, st2) ∧
    parser_raises nat Z unit string sample_get_feed_parser sample_parse
      sample_provider item (world st2) cause w' ∧
    ex = ParserError_parseMessageError cause sample_provider item ∧
    st' = Net w' (log st2).
Proof.
  intros endpoint ex st'.
  apply (update_failures nat Z unit string id sample_strftime endpoint
           sample_get_feed_parser sample_parse 3 sample_provider ∅ start
           ex st').
  by vm_compute.
Defined.

(** ** Failures that are not connection errors *)

(** C6, as stated, fails: the first page succeeds and reading the second
    one times out.  The read timeout is a failure of the transport, but not
    a [ConnectionError] of the requests library: the walk lets it through
    as it is, and with no amount of fuel does it raise an
    [apiConnectionError]. *)
Lemma fetch_connection_failure_counterexample :
  let endpoint := scripted [ok_15] (Fails read_timeout) in
  is_ConnectionError (exc_class read_timeout) = false ∧
  (∃ st',
     sample_fetch endpoint 2 sample_config sample_provider start =
       Done (Raise (RequestException read_timeout)) st' ∧
     offsets (log st') = [Some 0; Some 10]) ∧
  (∀ fuel cause p st',
     sample_fetch endpoint fuel sample_config sample_provider start ≠
       Done (Raise (IngestApiError apiConnectionError cause p)) st').
Proof.
  intros endpoint.
  assert (∃ st',
     sample_fetch endpoint 2 sample_config sample_provider start =
       Done (Raise (RequestException read_timeout)) st' ∧
     offsets (log st') = [Some 0; Some 10]) as Htwo.
  { eexists. split; by vm_compute. }
  split; [done|]. split; [exact Htwo|].
  intros fuel cause p st' H. destruct Htwo as (st2 & H2 & _).
  destruct (decide (fuel < 2)%nat) as [Hlt|Hge].
  - destruct fuel as [|[|fuel]]; [by vm_compute in H..|lia].
  - rewrite (_fetch_data_Done_more _ _ _ _ _ 2%nat _ _ _ _ _ H2 fuel) in H
      by lia.
    discriminate.
Qed.

(** C8, as stated, fails in its first case: when the request of [_test]
    times out while the answer is read, [_test] raises the exception of
    the requests library as it is, not an [apiConnectionError]. *)
Lemma test_classification_counterexample :
  is_ConnectionError (exc_class read_timeout) = false ∧
  (sample_test (scripted [] (Fails read_timeout)) sample_provider start).1
    = Raise (RequestException read_timeout) ∧
  (∀ cause p,
     (sample_test (scripted [] (Fails read_timeout)) sample_provider
        start).1
     ≠ Raise (IngestApiError apiConnectionError cause p)).
Proof.
  split; [done|]. split; [by vm_compute|].
  intros cause p H. vm_compute in H. discriminate.
Qed.
